(** * Weather aggregation server: storage, provider adapters and routes

    A shallow embedding of [server/storage.ts] (the in-memory store with its
    accuracy table, proximity lookup and text search) and of [server/routes.ts]
    (the three provider adapters, the fan-out/selection of [/api/weather] and
    the geocoding fallback of [/api/locations/search]), followed by the
    properties the specification states about them.

    Conventions of the model.
    - A JavaScript number is a binary64 value.  Where the code computes with
      one (the subtraction of the proximity lookup, the products and
      quotients the OpenWeatherMap adapter forms before it rounds) the model
      computes with the primitive binary64 [float], so every rounding of the
      runtime is there.  Where the code only rounds a number with
      [Math.round], compares it or passes it on, the number is given by the
      rational it denotes ([Q], or [number] when it may be [NaN] or
      infinite): these steps are exact, and a statement over every rational
      covers every binary64 value.  Decimal samples stand for the binary64
      value next to them.
    - A text is the sequence of bytes of its UTF-8 form, which for
      well-formed texts has the same substrings as the sequence of UTF-16
      code units.  [String.prototype.toLowerCase] folds case by the Unicode
      tables of the runtime; these are not part of the program, so the
      lowering is a parameter of the model.
    - A [Map] is an association list in insertion order.
    - The outside world (HTTP replies, the locale's date formatting, the UUID
      generator, string-to-number conversion, the case tables) is a record of
      functions.
    - Wall-clock stamps ([createdAt], [fetchedAt]) are left out of the rows
      the routes handle. *)

From Stdlib Require Import Floats.
From Stdlib Require Import ZArith QArith Qround Qabs List String Ascii Bool Lia Lqa.
From Stdlib Require Import Permutation Sorted.
Import ListNotations.

(* ------------------------------------------------------------------ *)
(** ** JavaScript values used by the server *)

(** The values a [number] can take, a finite one as the rational it
    denotes. *)
Inductive number : Type :=
| Finite (q : Q)
| NaN
| Infinity (negative : bool).

Coercion Finite : Q >-> number.

(** [a < b] on finite numbers, as a boolean. *)
Definition Qltb (a b : Q) : bool := negb (Qle_bool b a).

(** [a - b]. *)
Definition number_sub (a b : number) : number :=
  match a, b with
  | NaN, _ | _, NaN => NaN
  | Finite x, Finite y => Finite (x - y)
  | Infinity s, Finite _ => Infinity s
  | Finite _, Infinity s => Infinity (negb s)
  | Infinity s, Infinity t => if Bool.eqb s t then NaN else Infinity s
  end.

(** [a < b]: false whenever an operand is [NaN]. *)
Definition number_lt (a b : number) : bool :=
  match a, b with
  | NaN, _ | _, NaN => false
  | Finite x, Finite y => Qltb x y
  | Infinity s, Finite _ => s
  | Finite _, Infinity s => negb s
  | Infinity s, Infinity t => s && negb t
  end.

Set Warnings "-inexact-float".

(** The number a binary64 value denotes: [(-1)^s * m * 2^e] for a finite
    one; both zeros denote 0. *)
Definition value (x : float) : number :=
  match Prim2SF x with
  | S754_zero _ => Finite 0
  | S754_infinity negative => Infinity negative
  | S754_nan => NaN
  | S754_finite negative m e =>
      Finite (Qred (inject_Z (if negative then Zneg m else Zpos m) * Qpower 2 e))
  end.

(** The binary64 value of an integer (exact up to [2^53]). *)
Definition binary64_of_Z (z : Z) : float :=
  match z with
  | Z0 => PrimFloat.zero
  | Zpos _ => PrimFloat.of_uint63 (Uint63.of_Z z)
  | Zneg _ => PrimFloat.opp (PrimFloat.of_uint63 (Uint63.of_Z (Z.opp z)))
  end.

Module Math.

(** [Math.round]: the nearest integer, a tie going up. *)
Definition round (x : Q) : Q := inject_Z (Qfloor (x + (1 # 2))).

(** [Math.round] of a binary64 value, as the number the result denotes:
    [NaN] and the infinities round to themselves. *)
Definition round_binary64 (x : float) : number :=
  match value x with
  | Finite q => Finite (round q)
  | other => other
  end.

(** The same result as a binary64 value, for the arithmetic that follows
    it.  A value of magnitude [2^53] or more has no fractional part and is
    its own rounding. *)
Definition round_float (x : float) : float :=
  match round_binary64 x with
  | Finite k =>
      if Qle_bool (Qabs k) 9007199254740992 then binary64_of_Z (Qfloor k) else x
  | _ => x
  end.

(** [Math.abs]. *)
Definition abs (x : number) : number :=
  match x with
  | Finite q => Finite (Qabs q)
  | NaN => NaN
  | Infinity _ => Infinity false
  end.

End Math.

(** What a property read on an object literal can yield in this program: a
    number of the literal itself, or a member inherited from
    [Object.prototype] (a built-in function, or the prototype object that
    [__proto__] returns). *)
Inductive JsValue : Type :=
| JNumber (q : Q)
| JFunction (name : string)
| JObjectPrototype.

(** Truthiness, as [||] tests it. *)
Definition truthy (v : JsValue) : bool :=
  match v with
  | JNumber q => negb (Qeq_bool q 0)
  | JFunction _ | JObjectPrototype => true
  end.

(** [ToPrimitive] of the non-number values: the text V8 prints for them. *)
Definition toPrimitive_string (v : JsValue) : string :=
  match v with
  | JNumber _ => ""
  | JFunction name => "function " ++ name ++ "() { [native code] }"
  | JObjectPrototype => "[object Object]"
  end.

(** [a > b].  Two numbers compare as numbers.  A function or object converts
    to its text: against a number that text converts to [NaN] and the
    comparison is false; two texts compare by code units. *)
Definition js_gt (a b : JsValue) : bool :=
  match a, b with
  | JNumber x, JNumber y => Qltb y x
  | JNumber _, _ | _, JNumber _ => false
  | _, _ => String.ltb (toPrimitive_string b) (toPrimitive_string a)
  end.

(** The members every object literal inherits from [Object.prototype]. *)
Definition Object_prototype : list (string * JsValue) :=
  [ ("constructor", JFunction "Object");
    ("__defineGetter__", JFunction "__defineGetter__");
    ("__defineSetter__", JFunction "__defineSetter__");
    ("hasOwnProperty", JFunction "hasOwnProperty");
    ("__lookupGetter__", JFunction "__lookupGetter__");
    ("__lookupSetter__", JFunction "__lookupSetter__");
    ("isPrototypeOf", JFunction "isPrototypeOf");
    ("propertyIsEnumerable", JFunction "propertyIsEnumerable");
    ("toString", JFunction "toString");
    ("valueOf", JFunction "valueOf");
    ("__proto__", JObjectPrototype);
    ("toLocaleString", JFunction "toLocaleString") ]%string.

(** First binding of [key] in an association list. *)
Fixpoint assoc {V : Type} (key : string) (l : list (string * V)) : option V :=
  match l with
  | [] => None
  | (k, v) :: rest => if String.eqb k key then Some v else assoc key rest
  end.

(** [literal[key]] for an object literal with numeric own properties: the own
    property when there is one, else the inherited member, else [undefined]. *)
Definition get_property (literal : list (string * Q)) (key : string)
  : option JsValue :=
  match assoc key literal with
  | Some q => Some (JNumber q)
  | None => assoc key Object_prototype
  end.

(** *** Strings *)

(** What [String.prototype.toLowerCase] does to a text is fixed by the
    Unicode tables of the runtime (simple and special casing, the latter
    depending on context: a capital sigma at the end of a word becomes the
    final sigma).  The function on non-empty texts is a parameter. *)
Definition Lowering : Type := string -> string.

(** [s.toLowerCase()]; the empty text is its own lower case. *)
Definition toLowerCase (lower : Lowering) (s : string) : string :=
  match s with
  | EmptyString => EmptyString
  | String _ _ => lower s
  end.

(** The lowering of the ASCII letters, which is what the tables say of a
    text made of ASCII characters only. *)
Definition ascii_toLowerCase_char (c : ascii) : ascii :=
  let n := nat_of_ascii c in
  if (65 <=? n)%nat && (n <=? 90)%nat then ascii_of_nat (n + 32) else c.

Fixpoint ascii_toLowerCase (s : string) : string :=
  match s with
  | EmptyString => EmptyString
  | String c rest => String (ascii_toLowerCase_char c) (ascii_toLowerCase rest)
  end.

(** Every character of [s] is an ASCII character. *)
Fixpoint is_ascii (s : string) : bool :=
  match s with
  | EmptyString => true
  | String c rest => (nat_of_ascii c <? 128)%nat && is_ascii rest
  end.

(** [s.includes(searchString)]: [searchString] occurs at some position. *)
Fixpoint includes (s searchString : string) : bool :=
  if String.prefix searchString s then true
  else match s with
       | EmptyString => false
       | String _ rest => includes rest searchString
       end.

(** *** Maps *)

(** A [Map<string, V>]: bindings in insertion order. *)
Definition Map (V : Type) : Type := list (string * V).

(** [m.set(key, v)]: a present key keeps its place, a new one goes last. *)
Fixpoint Map_set {V : Type} (key : string) (v : V) (m : Map V) : Map V :=
  match m with
  | [] => [(key, v)]
  | (k, old) :: rest =>
      if String.eqb k key then (k, v) :: rest else (k, old) :: Map_set key v rest
  end.

(** [Array.from(m.values())]. *)
Definition Map_values {V : Type} (m : Map V) : list V := map snd m.

(* ------------------------------------------------------------------ *)
(** ** shared/schema.ts: the stored rows *)

(** A row of [locations]; [createdAt] is a wall-clock stamp and is left out. *)
Module Location.
Record t : Type := Build
    { id : string;
      name : string;
      latitude : Q;
      longitude : Q;
      country : option string;
      state : option string }.
End Location.

(** [InsertLocation]: a location before the store gives it an [id]. *)
Module InsertLocation.
Record t : Type := Build
    { name : string;
      latitude : Q;
      longitude : Q;
      country : option string;
      state : option string }.
End InsertLocation.

(** The icon of a forecast point: a text for two providers, a number for the
    third. *)
Inductive Icon : Type :=
| IconText (s : string)
| IconNumber (q : Q).

Module CurrentWeather.
Record t : Type := Build
    { temperature : Q;
      condition : string;
      description : string;
      humidity : Q;
      windSpeed : Q;
      windDirection : Q;
      visibility : number;
      feelsLike : Q;
      uvIndex : Q;
      pressure : Q }.
End CurrentWeather.

Module Hourly.
Record t : Type := Build
    { time : string;
      temperature : Q;
      condition : string;
      precipitation : number;
      icon : Icon }.
End Hourly.

Module Daily.
Record t : Type := Build
    { day : string;
      condition : string;
      description : string;
      highTemp : Q;
      lowTemp : Q;
      precipitation : number;
      icon : Icon }.
End Daily.

(** The object an adapter returns: a row of [weather_data] without [id],
    [accuracy] and [fetchedAt]. *)
Module Weather.
Record t : Type := Build
    { source : string;
      location : string;
      latitude : number;
      longitude : number;
      currentWeather : CurrentWeather.t;
      hourlyForecast : list Hourly.t;
      dailyForecast : list Daily.t }.
End Weather.

(** [{ ...weather, accuracy }]: an adapter's record with its score attached. *)
Module Scored.
Record t : Type := Build
    { weather : Weather.t;
      accuracy : JsValue }.
End Scored.

(* ------------------------------------------------------------------ *)
(** ** server/storage.ts: [MemStorage] *)

(** The maps of [MemStorage] that the weather code uses ([users] is not). *)
Record MemStorage : Type := Build_MemStorage
  { weatherData : Map Scored.t;
    locations : Map Location.t }.

Definition empty_storage : MemStorage :=
  {| weatherData := []; locations := [] |}.

(** [saveWeatherData(data)], [id] being what [randomUUID()] returned; the
    row is kept under [id]. *)
Definition saveWeatherData (id : string) (data : Scored.t) (st : MemStorage)
  : Scored.t * MemStorage :=
  (data, {| weatherData := Map_set id data (weatherData st);
            locations := locations st |}).

(** [Math.abs(coordinate - x) < 0.01] read on the numbers the operands
    denote, without the rounding of the subtraction. *)
Definition near (coordinate : Q) (x : number) : bool :=
  number_lt (Math.abs (number_sub coordinate x)) 0.01.

(** The test as the runtime computes it, on binary64 values: the
    subtraction is rounded and the literal is the binary64 value next to
    0.01. *)
Definition near_binary64 (coordinate x : float) : bool :=
  PrimFloat.ltb (PrimFloat.abs (PrimFloat.sub coordinate x)) 0.01%float.

(** [getLocationByCoords(lat, lon)] read on the numbers the coordinates
    denote: the first cached location within a hundredth of a degree on
    both axes.  The computation of the runtime, which rounds, is
    [Binary64.getLocationByCoords] below. *)
Definition getLocationByCoords (lat lon : number) (st : MemStorage)
  : option Location.t :=
  find (fun loc => near (Location.latitude loc) lat
                   && near (Location.longitude loc) lon)
       (Map_values (locations st)).

Module Binary64.

(** A row of [locations] with its coordinates as the binary64 values the
    runtime holds. *)
Record Location : Type := Build_Location
  { id : string;
    name : string;
    latitude : float;
    longitude : float;
    country : option string;
    state : option string }.

(** [getLocationByCoords(lat, lon)] as the runtime computes it: the first
    cached location that passes the binary64 test on both axes. *)
Definition getLocationByCoords (lat lon : float) (locations : Map Location)
  : option Location :=
  find (fun loc => near_binary64 (latitude loc) lat
                   && near_binary64 (longitude loc) lon)
       (Map_values locations).

End Binary64.

(** [saveLocation(location)], [id] being what [randomUUID()] returned. *)
Definition saveLocation (id : string) (location : InsertLocation.t)
    (st : MemStorage) : Location.t * MemStorage :=
  let loc :=
    {| Location.id := id;
       Location.name := InsertLocation.name location;
       Location.latitude := InsertLocation.latitude location;
       Location.longitude := InsertLocation.longitude location;
       Location.country := InsertLocation.country location;
       Location.state := InsertLocation.state location |} in
  (loc, {| weatherData := weatherData st;
           locations := Map_set id loc (locations st) |}).

(** [field?.toLowerCase().includes(lowercaseQuery)]: [undefined], hence
    falsy, when the field is absent. *)
Definition optional_includes (lower : Lowering) (field : option string)
    (lowercaseQuery : string) : bool :=
  match field with
  | Some text => includes (toLowerCase lower text) lowercaseQuery
  | None => false
  end.

(** The callback of the filter in [searchLocations]. *)
Definition location_matches (lower : Lowering) (lowercaseQuery : string)
    (loc : Location.t) : bool :=
  includes (toLowerCase lower (Location.name loc)) lowercaseQuery
  || optional_includes lower (Location.country loc) lowercaseQuery
  || optional_includes lower (Location.state loc) lowercaseQuery.

(** [searchLocations(query)], [lower] being the runtime's lowering. *)
Definition searchLocations (lower : Lowering) (query : string) (st : MemStorage)
  : list Location.t :=
  let lowercaseQuery := toLowerCase lower query in
  filter (location_matches lower lowercaseQuery) (Map_values (locations st)).

(** The table of [getWeatherAccuracy]. *)
Definition accuracyMap : list (string * Q) :=
  [ ("openweathermap", 0.94);
    ("accuweather", 0.89);
    ("weatherapi", 0.87) ]%string.

(** [getWeatherAccuracy(source, location)]: [accuracyMap[source] || 0.85]. *)
Definition getWeatherAccuracy (source location : string) : JsValue :=
  match get_property accuracyMap source with
  | Some v => if truthy v then v else JNumber 0.85
  | None => JNumber 0.85
  end.

(* ------------------------------------------------------------------ *)
(** ** Exceptions and the outside world *)

(** How an expression completes: with a value, or by throwing (a rejected
    request, a member read on [undefined], an explicit [throw]). *)
Inductive Completion (A : Type) : Type :=
| Normal (value : A)
| Throw.

Arguments Normal {A} value.
Arguments Throw {A}.

Definition bind {A B : Type} (m : Completion A) (k : A -> Completion B)
  : Completion B :=
  match m with
  | Normal a => k a
  | Throw => Throw
  end.

Notation "x <- m ;; k" := (bind m (fun x => k))
  (at level 61, m at next level, right associativity).

(** [array[0]], for an array whose element is then dereferenced: reading a
    member of [undefined] throws. *)
Definition first {A : Type} (array : list A) : Completion A :=
  match array with
  | x :: _ => Normal x
  | [] => Throw
  end.

(** [array.map((item, index) => ...)] with a callback that may throw;
    [index] is the position of the head of [array]. *)
Fixpoint map_indexed {A B : Type} (callback : A -> nat -> Completion B)
    (index : nat) (array : list A) : Completion (list B) :=
  match array with
  | [] => Normal []
  | item :: rest =>
      y <- callback item index ;;
      ys <- map_indexed callback (S index) rest ;;
      Normal (y :: ys)
  end.

(** [array.filter((_, index) => keep index)]. *)
Fixpoint filter_indexed {A : Type} (keep : nat -> bool) (index : nat)
    (array : list A) : list A :=
  match array with
  | [] => []
  | item :: rest =>
      if keep index then item :: filter_indexed keep (S index) rest
      else filter_indexed keep (S index) rest
  end.

(** [array.slice(0, n)]. *)
Definition slice0 {A : Type} (n : nat) (array : list A) : list A := firstn n array.

(** The argument of [new Date(...)]: epoch milliseconds (a binary64 value)
    or a date text. *)
Inductive DateArg : Type :=
| DateOfNumber (ms : float)
| DateOfText (text : string).

(** One entry of the geocoding reply. *)
Module Geocoded.
Record t : Type := Build
  { name : string;
    lat : Q;
    lon : Q;
    country : option string;
    state : option string }.
End Geocoded.

(** OpenWeatherMap replies ([/weather] and [/forecast]); a nested object
    [a.b] is the field [a_b].  The numbers the adapter computes with, [dt],
    [visibility] and [pop], are binary64 values; a reply may come without
    either of the last two. *)
Module Owm.
Record condition : Type := Build_condition
  { main : string;
    description : string;
    icon : string }.
Record current : Type := Build_current
  { name : string;
    sys_country : string;
    main_temp : Q;
    main_humidity : Q;
    main_feels_like : Q;
    main_pressure : Q;
    weather : Datatypes.list condition;
    wind_speed : Q;
    wind_deg : Q;
    visibility : option float }.
Record item : Type := Build_item
  { dt : float;
    item_main_temp : Q;
    item_main_temp_max : Q;
    item_main_temp_min : Q;
    item_weather : Datatypes.list condition;
    pop : option float }.
Record forecast : Type := Build_forecast
  { list : Datatypes.list item }.
End Owm.

(** The WeatherAPI reply of [/forecast.json]. *)
Module WeatherApi.
Record hour_entry : Type := Build_hour_entry
  { time : string;
    temp_f : Q;
    hour_condition_text : string;
    hour_condition_icon : string;
    chance_of_rain : Q }.
Record forecastday : Type := Build_forecastday
  { date : string;
    day_condition_text : string;
    day_condition_icon : string;
    day_maxtemp_f : Q;
    day_mintemp_f : Q;
    day_daily_chance_of_rain : Q;
    hour : list hour_entry }.
Record data : Type := Build_data
  { location_name : string;
    location_country : string;
    current_temp_f : Q;
    current_condition_text : string;
    current_humidity : Q;
    current_wind_mph : Q;
    current_wind_degree : Q;
    current_vis_miles : Q;
    current_feelslike_f : Q;
    current_uv : Q;
    current_pressure_mb : Q;
    forecast_forecastday : list forecastday }.
End WeatherApi.

(** AccuWeather replies: the geoposition search, the current conditions (an
    array) and the ten-day forecast. *)
Module Accu.
Record position : Type := Build_position
  { Key : string;
    LocalizedName : string;
    Country_LocalizedName : string }.
Record conditions : Type := Build_conditions
  { Temperature_Imperial_Value : Q;
    WeatherText : string;
    RelativeHumidity : Q;
    Wind_Speed_Imperial_Value : Q;
    Wind_Direction_Degrees : Q;
    Visibility_Imperial_Value : Q;
    RealFeelTemperature_Imperial_Value : Q;
    UVIndex : Q;
    Pressure_Imperial_Value : Q }.
Record daily : Type := Build_daily
  { Date : string;
    Day_IconPhrase : string;
    Day_LongPhrase : string;
    Temperature_Maximum_Value : Q;
    Temperature_Minimum_Value : Q;
    Day_PrecipitationProbability : Q;
    Day_Icon : Q }.
Record forecast : Type := Build_forecast
  { DailyForecasts : list daily }.
End Accu.

(** Everything the server asks of its environment.  A request function
    gives the parsed reply, or throws when the call fails (no connection, a
    refused key, a reply of another shape). *)
Record World : Type := Build_World
  { (** [Number(text)] *)
    StringToNumber : string -> number;
    (** [text.toLowerCase()] for a non-empty text *)
    lowerCase : Lowering;
    (** [date.toLocaleTimeString('en-US', { hour: 'numeric' })] *)
    toLocaleTimeString : DateArg -> string;
    (** [date.toLocaleDateString('en-US', { weekday: 'short' })] *)
    toLocaleDateString : DateArg -> string;
    (** the [n]-th identifier [randomUUID()] hands out during a request *)
    randomUUID : nat -> string;
    (** [GET /geo/1.0/direct?q=...] *)
    geocoding_direct : string -> Completion (list Geocoded.t);
    (** [GET /data/2.5/weather?lat=..&lon=..] *)
    owm_weather : number -> number -> Completion Owm.current;
    (** [GET /data/2.5/forecast?lat=..&lon=..] *)
    owm_forecast : number -> number -> Completion Owm.forecast;
    (** [GET /v1/forecast.json?q=lat,lon&days=10] *)
    weatherapi_forecast : number -> number -> Completion WeatherApi.data;
    (** [GET /locations/v1/cities/geoposition/search?q=lat,lon] *)
    accu_geoposition : number -> number -> Completion Accu.position;
    (** [GET /currentconditions/v1/<key>] *)
    accu_currentconditions : string -> Completion (list Accu.conditions);
    (** [GET /forecasts/v1/daily/10day/<key>] *)
    accu_daily10day : string -> Completion Accu.forecast }.

(* ------------------------------------------------------------------ *)
(** ** server/routes.ts: the provider adapters *)

Section Adapters.

Variable W : World.

(** [item.pop || 0]: [undefined], [NaN] and the zeros are falsy. *)
Definition pop_or_0 (pop : option float) : float :=
  match pop with
  | Some p => if PrimFloat.is_nan p || PrimFloat.is_zero p then 0%float else p
  | None => 0%float
  end.

(** [Math.round((item.pop || 0) * 100)]: the product is a binary64 product. *)
Definition percent (pop : option float) : number :=
  Math.round_binary64 (PrimFloat.mul (pop_or_0 pop) 100).

(** [Math.round((visibility / 1609.344) * 10) / 10], each step in binary64.
    A reply without [visibility] gives [undefined], which the division
    turns into [NaN]. *)
Definition miles_to_a_tenth (visibility : option float) : number :=
  match visibility with
  | Some metres =>
      value (PrimFloat.div
               (Math.round_float
                  (PrimFloat.mul (PrimFloat.div metres 1609.344) 10))
               10)
  | None => NaN
  end.

(** An entry of [hourlyForecast] of the OpenWeatherMap adapter. *)
Definition owm_hourly (item : Owm.item) (index : nat) : Completion Hourly.t :=
  w <- first (Owm.item_weather item) ;;
  Normal
    {| Hourly.time := toLocaleTimeString W (DateOfNumber (PrimFloat.mul (Owm.dt item) 1000));
       Hourly.temperature := Math.round (Owm.item_main_temp item);
       Hourly.condition := Owm.main w;
       Hourly.precipitation := percent (Owm.pop item);
       Hourly.icon := IconText (Owm.icon w) |}.

(** An entry of [dailyForecast] of the OpenWeatherMap adapter. *)
Definition owm_daily (item : Owm.item) (index : nat) : Completion Daily.t :=
  w <- first (Owm.item_weather item) ;;
  Normal
    {| Daily.day := if (index =? 0)%nat then "Today"%string
                    else toLocaleDateString W (DateOfNumber (PrimFloat.mul (Owm.dt item) 1000));
       Daily.condition := Owm.main w;
       Daily.description := Owm.description w;
       Daily.highTemp := Math.round (Owm.item_main_temp_max item);
       Daily.lowTemp := Math.round (Owm.item_main_temp_min item);
       Daily.precipitation := percent (Owm.pop item);
       Daily.icon := IconText (Owm.icon w) |}.

(** The object [fetchOpenWeatherMap] returns, from the two replies. *)
Definition OpenWeatherMap_record (lat lon : number) (current : Owm.current)
    (forecast : Owm.forecast) : Completion Weather.t :=
  w <- first (Owm.weather current) ;;
  hourly <- map_indexed owm_hourly 0 (slice0 24 (Owm.list forecast)) ;;
  daily <- map_indexed owm_daily 0
             (slice0 10 (filter_indexed (fun index => (index mod 8 =? 0)%nat) 0
                                        (Owm.list forecast))) ;;
  Normal
    {| Weather.source := "openweathermap";
       Weather.location := (Owm.name current ++ ", " ++ Owm.sys_country current)%string;
       Weather.latitude := lat;
       Weather.longitude := lon;
       Weather.currentWeather :=
         {| CurrentWeather.temperature := Math.round (Owm.main_temp current);
            CurrentWeather.condition := Owm.main w;
            CurrentWeather.description := Owm.description w;
            CurrentWeather.humidity := Owm.main_humidity current;
            CurrentWeather.windSpeed := Math.round (Owm.wind_speed current);
            CurrentWeather.windDirection := Owm.wind_deg current;
            CurrentWeather.visibility := miles_to_a_tenth (Owm.visibility current);
            CurrentWeather.feelsLike := Math.round (Owm.main_feels_like current);
            CurrentWeather.uvIndex := 6;
            CurrentWeather.pressure := Owm.main_pressure current |};
       Weather.hourlyForecast := hourly;
       Weather.dailyForecast := daily |}.

(** [fetchOpenWeatherMap(lat, lon)]: both requests, then the record. *)
Definition fetchOpenWeatherMap (lat lon : number) : Completion Weather.t :=
  current <- owm_weather W lat lon ;;
  forecast <- owm_forecast W lat lon ;;
  OpenWeatherMap_record lat lon current forecast.

(** An entry of [hourlyForecast] of the WeatherAPI adapter. *)
Definition weatherapi_hourly (hour : WeatherApi.hour_entry) (index : nat)
  : Completion Hourly.t :=
  Normal
    {| Hourly.time := toLocaleTimeString W (DateOfText (WeatherApi.time hour));
       Hourly.temperature := Math.round (WeatherApi.temp_f hour);
       Hourly.condition := WeatherApi.hour_condition_text hour;
       Hourly.precipitation := Finite (WeatherApi.chance_of_rain hour);
       Hourly.icon := IconText (WeatherApi.hour_condition_icon hour) |}.

(** An entry of [dailyForecast] of the WeatherAPI adapter. *)
Definition weatherapi_daily (day : WeatherApi.forecastday) (index : nat)
  : Completion Daily.t :=
  Normal
    {| Daily.day := if (index =? 0)%nat then "Today"%string
                    else toLocaleDateString W (DateOfText (WeatherApi.date day));
       Daily.condition := WeatherApi.day_condition_text day;
       Daily.description := WeatherApi.day_condition_text day;
       Daily.highTemp := Math.round (WeatherApi.day_maxtemp_f day);
       Daily.lowTemp := Math.round (WeatherApi.day_mintemp_f day);
       Daily.precipitation := Finite (WeatherApi.day_daily_chance_of_rain day);
       Daily.icon := IconText (WeatherApi.day_condition_icon day) |}.

(** The object [fetchWeatherAPI] returns, from the reply. *)
Definition WeatherAPI_record (lat lon : number) (data : WeatherApi.data)
  : Completion Weather.t :=
  today <- first (WeatherApi.forecast_forecastday data) ;;
  hourly <- map_indexed weatherapi_hourly 0 (slice0 24 (WeatherApi.hour today)) ;;
  daily <- map_indexed weatherapi_daily 0 (WeatherApi.forecast_forecastday data) ;;
  Normal
    {| Weather.source := "weatherapi";
       Weather.location :=
         (WeatherApi.location_name data ++ ", " ++ WeatherApi.location_country data)%string;
       Weather.latitude := lat;
       Weather.longitude := lon;
       Weather.currentWeather :=
         {| CurrentWeather.temperature := Math.round (WeatherApi.current_temp_f data);
            CurrentWeather.condition := WeatherApi.current_condition_text data;
            CurrentWeather.description := WeatherApi.current_condition_text data;
            CurrentWeather.humidity := WeatherApi.current_humidity data;
            CurrentWeather.windSpeed := Math.round (WeatherApi.current_wind_mph data);
            CurrentWeather.windDirection := WeatherApi.current_wind_degree data;
            CurrentWeather.visibility := Finite (WeatherApi.current_vis_miles data);
            CurrentWeather.feelsLike := Math.round (WeatherApi.current_feelslike_f data);
            CurrentWeather.uvIndex := WeatherApi.current_uv data;
            CurrentWeather.pressure := WeatherApi.current_pressure_mb data |};
       Weather.hourlyForecast := hourly;
       Weather.dailyForecast := daily |}.

(** [fetchWeatherAPI(lat, lon)]. *)
Definition fetchWeatherAPI (lat lon : number) : Completion Weather.t :=
  data <- weatherapi_forecast W lat lon ;;
  WeatherAPI_record lat lon data.

(** An entry of [dailyForecast] of the AccuWeather adapter. *)
Definition accu_daily (day : Accu.daily) (index : nat) : Completion Daily.t :=
  Normal
    {| Daily.day := if (index =? 0)%nat then "Today"%string
                    else toLocaleDateString W (DateOfText (Accu.Date day));
       Daily.condition := Accu.Day_IconPhrase day;
       Daily.description := Accu.Day_LongPhrase day;
       Daily.highTemp := Math.round (Accu.Temperature_Maximum_Value day);
       Daily.lowTemp := Math.round (Accu.Temperature_Minimum_Value day);
       Daily.precipitation := Finite (Accu.Day_PrecipitationProbability day);
       Daily.icon := IconNumber (Accu.Day_Icon day) |}.

(** The object [fetchAccuWeather] returns, from the three replies. *)
Definition AccuWeather_record (lat lon : number) (position : Accu.position)
    (currentRes : list Accu.conditions) (forecast : Accu.forecast)
  : Completion Weather.t :=
  current <- first currentRes ;;
  daily <- map_indexed accu_daily 0 (Accu.DailyForecasts forecast) ;;
  Normal
    {| Weather.source := "accuweather";
       Weather.location :=
         (Accu.LocalizedName position ++ ", " ++ Accu.Country_LocalizedName position)%string;
       Weather.latitude := lat;
       Weather.longitude := lon;
       Weather.currentWeather :=
         {| CurrentWeather.temperature := Math.round (Accu.Temperature_Imperial_Value current);
            CurrentWeather.condition := Accu.WeatherText current;
            CurrentWeather.description := Accu.WeatherText current;
            CurrentWeather.humidity := Accu.RelativeHumidity current;
            CurrentWeather.windSpeed := Math.round (Accu.Wind_Speed_Imperial_Value current);
            CurrentWeather.windDirection := Accu.Wind_Direction_Degrees current;
            CurrentWeather.visibility :=
              Finite (Math.round (Accu.Visibility_Imperial_Value current));
            CurrentWeather.feelsLike :=
              Math.round (Accu.RealFeelTemperature_Imperial_Value current);
            CurrentWeather.uvIndex := Accu.UVIndex current;
            CurrentWeather.pressure := Accu.Pressure_Imperial_Value current |};
       Weather.hourlyForecast := [];
       Weather.dailyForecast := daily |}.

(** [fetchAccuWeather(lat, lon)]: the location key first, then the two
    requests that need it. *)
Definition fetchAccuWeather (lat lon : number) : Completion Weather.t :=
  position <- accu_geoposition W lat lon ;;
  let locationKey := Accu.Key position in
  currentRes <- accu_currentconditions W locationKey ;;
  forecast <- accu_daily10day W locationKey ;;
  AccuWeather_record lat lon position currentRes forecast.

(** The [params] object of [fetchWeatherFromSource]. *)
Record Params : Type := Build_Params
  { lat : number;
    lon : number;
    location : string }.

(** [fetchWeatherFromSource(source, params)]: the adapter's record, or
    [null] ([None]) when the adapter throws or the source is unknown. *)
Definition fetchWeatherFromSource (source : string) (params : Params)
  : option Weather.t :=
  let lat := lat params in
  let lon := lon params in
  let attempt :=
    if (source =? "openweathermap")%string then fetchOpenWeatherMap lat lon
    else if (source =? "weatherapi")%string then fetchWeatherAPI lat lon
    else if (source =? "accuweather")%string then fetchAccuWeather lat lon
    else Throw in
  match attempt with
  | Normal record => Some record
  | Throw => None
  end.

End Adapters.

(* ------------------------------------------------------------------ *)
(** ** server/routes.ts: the two endpoints *)

(** A member of [req.query]: absent, one text, or a list of texts (a
    repeated key). *)
Inductive QueryValue : Type :=
| QAbsent
| QText (text : string)
| QList (items : list string).

(** [!v]. *)
Definition falsy (v : QueryValue) : bool :=
  match v with
  | QAbsent => true
  | QText text => (text =? "")%string
  | QList _ => false
  end.

(** [String(v)]: a list is joined with commas. *)
Definition String_of (v : QueryValue) : string :=
  match v with
  | QAbsent => "undefined"
  | QText text => text
  | QList items => String.concat "," items
  end.

(** What [res] is told: [res.json(body)] or [res.status(code).json({ message })]. *)
Inductive Response (B : Type) : Type :=
| json (body : B)
| status_json (code : nat) (message : string).

Arguments json {B} body.
Arguments status_json {B} code message.

(** A promise once [Promise.allSettled] has waited for it. *)
Inductive Settled (A : Type) : Type :=
| fulfilled (value : A)
| rejected.

Arguments fulfilled {A} value.
Arguments rejected {A}.

(** [.filter(result => result.status === 'fulfilled').map(result => result.value)]. *)
Definition fulfilled_values {A : Type} (results : list (Settled A)) : list A :=
  flat_map (fun result => match result with
                          | fulfilled value => [value]
                          | rejected => []
                          end) results.

(** [.filter(Boolean)] on values that are a record or [null]. *)
Definition filter_Boolean {A : Type} (values : list (option A)) : list A :=
  flat_map (fun value => match value with
                         | Some record => [record]
                         | None => []
                         end) values.

(** [array.reduce(callback)] without an initial value: throws on []. *)
Definition reduce {A : Type} (callback : A -> A -> A) (array : list A)
  : Completion A :=
  match array with
  | [] => Throw
  | x :: rest => Normal (fold_left callback rest x)
  end.

(** The body of a successful [/api/weather] answer. *)
Record Aggregate : Type := Build_Aggregate
  { sources : list Scored.t;
    mostAccurate : Scored.t;
    aggregated : Scored.t }.

(** The result of a location search: the geocoder's entries, or cached rows. *)
Inductive SearchBody : Type :=
| Geocoded_locations (found : list InsertLocation.t)
| Cached_locations (found : list Location.t).

Section Routes.

Variable W : World.

(** [Number(v)]. *)
Definition Number_of (v : QueryValue) : number :=
  match v with
  | QAbsent => NaN
  | _ => StringToNumber W (String_of v)
  end.

(** The entry of the geocoding reply as the search route reshapes it. *)
Definition location_of_geocoded (loc : Geocoded.t) : InsertLocation.t :=
  {| InsertLocation.name := Geocoded.name loc;
     InsertLocation.latitude := Geocoded.lat loc;
     InsertLocation.longitude := Geocoded.lon loc;
     InsertLocation.country := Geocoded.country loc;
     InsertLocation.state := Geocoded.state loc |}.

(** [for (const location of locations) await storage.saveLocation(location)],
    the [n]-th save drawing the [n]-th identifier from [drawn] on. *)
Fixpoint save_locations (drawn : nat) (found : list InsertLocation.t)
    (st : MemStorage) : MemStorage :=
  match found with
  | [] => st
  | location :: rest =>
      save_locations (S drawn) rest (snd (saveLocation (randomUUID W drawn) location st))
  end.

(** The inner [try]/[catch] of the search route: ask the geocoder, cache and
    return what it found; when that throws, search the cache instead. *)
Definition resolve (q : string) (st : MemStorage) : SearchBody * MemStorage :=
  match geocoding_direct W q with
  | Normal data =>
      let found := map location_of_geocoded data in
      (Geocoded_locations found, save_locations 0 found st)
  | Throw =>
      let localResults := searchLocations (lowerCase W) q st in
      (Cached_locations localResults, st)
  end.

(** The statements of the route's outer [try]: the check of [q], then
    [resolve] and the answer.  With cached rows as the row type declares
    them (the name a text) none of these statements throws past the inner
    [catch], so the completion is always normal. *)
Definition search_attempt (q : QueryValue) (st : MemStorage)
  : Completion (Response SearchBody * MemStorage) :=
  match q with
  | QText text =>
      if falsy q then Normal (status_json 400 "Query parameter 'q' is required", st)
      else let (body, st') := resolve text st in Normal (json body, st')
  | _ => Normal (status_json 400 "Query parameter 'q' is required", st)
  end.

(** [GET /api/locations/search]: the outer [catch] answers 500. *)
Definition search_handler (q : QueryValue) (st : MemStorage)
  : Response SearchBody * MemStorage :=
  match search_attempt q st with
  | Normal answer => answer
  | Throw => (status_json 500 "Failed to search locations", st)
  end.

Definition weatherSources : list string :=
  ["openweathermap"; "weatherapi"; "accuweather"]%string.

(** [await Promise.allSettled(weatherPromises)]: one settled promise per
    source, in the order of [weatherSources].  [fetchWeatherFromSource]
    catches whatever its adapter throws, so each one is fulfilled. *)
Definition weatherResults (params : Params) : list (Settled (option Weather.t)) :=
  map (fun source => fulfilled (fetchWeatherFromSource W source params)) weatherSources.

Definition successfulResults (params : Params) : list Weather.t :=
  filter_Boolean (fulfilled_values (weatherResults params)).

(** [{ ...weather, accuracy }] with the accuracy the store returns. *)
Definition with_accuracy (weather : Weather.t) : Scored.t :=
  {| Scored.weather := weather;
     Scored.accuracy :=
       getWeatherAccuracy (Weather.source weather) (Weather.location weather) |}.

(** [for (const weather of weatherWithAccuracy) await storage.saveWeatherData(weather)]. *)
Fixpoint save_weather (drawn : nat) (records : list Scored.t) (st : MemStorage)
  : MemStorage :=
  match records with
  | [] => st
  | weather :: rest =>
      save_weather (S drawn) rest (snd (saveWeatherData (randomUUID W drawn) weather st))
  end.

(** The callback of the [reduce] that picks the answer. *)
Definition more_accurate (prev current : Scored.t) : Scored.t :=
  if js_gt (Scored.accuracy current) (Scored.accuracy prev) then current else prev.

(** The selection: [weatherWithAccuracy.reduce(...)]. *)
Definition select_mostAccurate (weatherWithAccuracy : list Scored.t)
  : Completion Scored.t :=
  reduce more_accurate weatherWithAccuracy.

(** [/api/weather] once the query is accepted: fan out, keep the successes,
    score, save, select. *)
Definition aggregate (params : Params) (st : MemStorage)
  : Response Aggregate * MemStorage :=
  let successfulResults := successfulResults params in
  if (List.length successfulResults =? 0)%nat then
    (status_json 503 "Failed to fetch weather data from all sources", st)
  else
    let weatherWithAccuracy := map with_accuracy successfulResults in
    let st' := save_weather 0 weatherWithAccuracy st in
    match select_mostAccurate weatherWithAccuracy with
    | Normal mostAccurate =>
        (json {| sources := weatherWithAccuracy;
                 mostAccurate := mostAccurate;
                 aggregated := mostAccurate |}, st')
    | Throw => (status_json 500 "Failed to fetch weather data", st')
    end.

(** The record-building expression of the route:
    [{ lat: Number(lat), lon: Number(lon), location: String(location) }]. *)
Definition params_of_query (lat lon location : QueryValue) : Params :=
  {| lat := Number_of lat; lon := Number_of lon; location := String_of location |}.

(** [GET /api/weather]. *)
Definition weather_handler (lat lon location : QueryValue) (st : MemStorage)
  : Response Aggregate * MemStorage :=
  if (falsy lat || falsy lon) && falsy location then
    (status_json 400 "Either lat/lon or location is required", st)
  else aggregate (params_of_query lat lon location) st.

End Routes.

(* ------------------------------------------------------------------ *)
(** ** The properties, as predicates *)

(** [y] is a whole number. *)
Definition is_integer (y : Q) : Prop := exists z : Z, y == inject_Z z.

(** [y] is [x] rounded to the nearest integer. *)
Definition nearest_integer (x y : Q) : Prop :=
  is_integer y /\ Qabs (y - x) <= 1 # 2.



(** [text] contains [query] as a case-insensitive substring: some
    substring of [text] and [query] have the same lower-case form. *)
Definition contains_ignoring_case (lower : Lowering) (text query : string)
  : Prop :=
  exists before middle after,
    text = (before ++ middle ++ after)%string
    /\ toLowerCase lower middle = toLowerCase lower query.

(** The same for a field that may be absent. *)
Definition field_contains (lower : Lowering) (field : option string)
    (query : string) : Prop :=
  exists text, field = Some text /\ contains_ignoring_case lower text query.

(** A cached location matches a query text on its name, country or state. *)
Definition matches_query (lower : Lowering) (query : string) (loc : Location.t)
  : Prop :=
  contains_ignoring_case lower (Location.name loc) query
  \/ field_contains lower (Location.country loc) query
  \/ field_contains lower (Location.state loc) query.

(** The test of the code: the lower-case form of [text] has the lower-case
    form of [query] as a substring. *)
Definition lowered_contains (lower : Lowering) (text query : string) : Prop :=
  exists before after,
    toLowerCase lower text
    = (before ++ toLowerCase lower query ++ after)%string.

(** The same for a field that may be absent. *)
Definition field_lowered_contains (lower : Lowering) (field : option string)
    (query : string) : Prop :=
  exists text, field = Some text /\ lowered_contains lower text query.

(** The lower-case form of the name, country or state of a cached location
    has the lower-case form of the query as a substring. *)
Definition matches_lowered (lower : Lowering) (query : string) (loc : Location.t)
  : Prop :=
  lowered_contains lower (Location.name loc) query
  \/ field_lowered_contains lower (Location.country loc) query
  \/ field_lowered_contains lower (Location.state loc) query.

(** On texts of ASCII characters [lower] is the lowering of the ASCII
    letters, as it is for the runtime's tables. *)
Definition lowers_ascii (lower : Lowering) : Prop :=
  forall text, is_ascii text = true -> toLowerCase lower text = ascii_toLowerCase text.

(** The name, country and state of a row are ASCII texts. *)
Definition ascii_fields (loc : Location.t) : bool :=
  is_ascii (Location.name loc)
  && match Location.country loc with Some text => is_ascii text | None => true end
  && match Location.state loc with Some text => is_ascii text | None => true end.

(** Every record of the sequence carries a numeric accuracy. *)
Definition all_scored (l : list Scored.t) : Prop :=
  Forall (fun r => exists q, Scored.accuracy r = JNumber q) l.

(** [a]'s accuracy is a number at most [b]'s. *)
Definition accuracy_le (a b : Scored.t) : Prop :=
  match Scored.accuracy a, Scored.accuracy b with
  | JNumber x, JNumber y => x <= y
  | _, _ => False
  end.

(** [a]'s accuracy is a number strictly below [b]'s. *)
Definition accuracy_lt (a b : Scored.t) : Prop :=
  match Scored.accuracy a, Scored.accuracy b with
  | JNumber x, JNumber y => x < y
  | _, _ => False
  end.

(** [a] and [b] carry the same numeric accuracy. *)
Definition accuracy_eq (a b : Scored.t) : Prop :=
  match Scored.accuracy a, Scored.accuracy b with
  | JNumber x, JNumber y => x == y
  | _, _ => False
  end.

(** Some adapter returns a record for [params]. *)
Definition some_adapter_succeeds (W : World) (params : Params) : Prop :=
  exists source record,
    In source weatherSources
    /\ fetchWeatherFromSource W source params = Some record.

(** [record] is what the adapter of one of the sources returned. *)
Definition successful_record (W : World) (params : Params) (record : Weather.t)
  : Prop :=
  exists source,
    In source weatherSources
    /\ fetchWeatherFromSource W source params = Some record.

(** The current conditions carry the provider's temperature, felt
    temperature and wind speed, each rounded to the nearest integer. *)
Definition current_rounded (temperature feelsLike windSpeed : Q)
    (c : CurrentWeather.t) : Prop :=
  nearest_integer temperature (CurrentWeather.temperature c)
  /\ nearest_integer feelsLike (CurrentWeather.feelsLike c)
  /\ nearest_integer windSpeed (CurrentWeather.windSpeed c).

(** A daily point carries the provider's high and low, each rounded to the
    nearest integer. *)
Definition daily_rounded (high low : Q) (d : Daily.t) : Prop :=
  nearest_integer high (Daily.highTemp d)
  /\ nearest_integer low (Daily.lowTemp d).

(** [y] is a whole number. *)
Definition is_whole (y : number) : Prop :=
  match y with
  | Finite q => is_integer q
  | NaN | Infinity _ => False
  end.

(** [y] is [x] rounded to the nearest integer; [NaN] and the infinities
    round to themselves. *)
Definition rounded_number (x y : number) : Prop :=
  match x, y with
  | Finite a, Finite b => nearest_integer a b
  | NaN, NaN => True
  | Infinity s, Infinity t => s = t
  | _, _ => False
  end.

(** [y] is the percentage the OpenWeatherMap adapter makes of [pop]: the
    binary64 product of [pop] (0 when absent) and 100, rounded to the
    nearest integer. *)
Definition percent_of_pop (pop : option float) (y : number) : Prop :=
  rounded_number (value (PrimFloat.mul (pop_or_0 pop) 100)) y.

(** What the OpenWeatherMap adapter does to the numbers it displays:
    temperatures and wind speed are rounded to the nearest integer, the
    precipitation is the rounded percentage of [pop], the visibility is the
    binary64 computation of miles to a tenth ([NaN] without a [visibility]),
    the pressure is the provider's. *)
Definition OpenWeatherMap_rounded (current : Owm.current)
    (forecast : Owm.forecast) (r : Weather.t) : Prop :=
  current_rounded (Owm.main_temp current) (Owm.main_feels_like current)
                  (Owm.wind_speed current) (Weather.currentWeather r)
  /\ CurrentWeather.visibility (Weather.currentWeather r)
     = miles_to_a_tenth (Owm.visibility current)
  /\ (Owm.visibility current = None ->
      CurrentWeather.visibility (Weather.currentWeather r) = NaN)
  /\ CurrentWeather.pressure (Weather.currentWeather r) = Owm.main_pressure current
  /\ Forall2 (fun item h =>
                nearest_integer (Owm.item_main_temp item) (Hourly.temperature h)
                /\ percent_of_pop (Owm.pop item) (Hourly.precipitation h))
             (slice0 24 (Owm.list forecast)) (Weather.hourlyForecast r)
  /\ Forall2 (fun item d =>
                daily_rounded (Owm.item_main_temp_max item)
                              (Owm.item_main_temp_min item) d
                /\ percent_of_pop (Owm.pop item) (Daily.precipitation d))
             (slice0 10 (filter_indexed (fun index => (index mod 8 =? 0)%nat) 0
                                        (Owm.list forecast)))
             (Weather.dailyForecast r).

(** For a whole number of metres the visibility of the OpenWeatherMap
    adapter is the whole number of tenths of a mile nearest to the distance,
    divided by ten in binary64. *)
Definition nearest_tenth_of_a_mile (metres : Z) : Prop :=
  miles_to_a_tenth (Some (binary64_of_Z metres))
  = value (PrimFloat.div
             (binary64_of_Z
                (Qfloor (Math.round (inject_Z metres / 1609.344 * 10))))
             10).

(** What the WeatherAPI adapter does: temperatures and wind speed are
    rounded to the nearest integer; visibility, precipitation and pressure
    are the provider's. *)
Definition WeatherAPI_rounded (data : WeatherApi.data) (r : Weather.t) : Prop :=
  current_rounded (WeatherApi.current_temp_f data)
                  (WeatherApi.current_feelslike_f data)
                  (WeatherApi.current_wind_mph data) (Weather.currentWeather r)
  /\ CurrentWeather.visibility (Weather.currentWeather r)
     = Finite (WeatherApi.current_vis_miles data)
  /\ CurrentWeather.pressure (Weather.currentWeather r)
     = WeatherApi.current_pressure_mb data
  /\ (exists today,
        first (WeatherApi.forecast_forecastday data) = Normal today
        /\ Forall2 (fun hour h =>
                      nearest_integer (WeatherApi.temp_f hour) (Hourly.temperature h)
                      /\ Hourly.precipitation h = Finite (WeatherApi.chance_of_rain hour))
                   (slice0 24 (WeatherApi.hour today)) (Weather.hourlyForecast r))
  /\ Forall2 (fun day d =>
                daily_rounded (WeatherApi.day_maxtemp_f day)
                              (WeatherApi.day_mintemp_f day) d
                /\ Daily.precipitation d
                   = Finite (WeatherApi.day_daily_chance_of_rain day))
             (WeatherApi.forecast_forecastday data) (Weather.dailyForecast r).

(** What the AccuWeather adapter does: temperatures, wind speed and
    visibility are rounded to the nearest integer; precipitation and
    pressure are the provider's; there is no hourly forecast. *)
Definition AccuWeather_rounded (currentRes : list Accu.conditions)
    (forecast : Accu.forecast) (r : Weather.t) : Prop :=
  (exists current,
     first currentRes = Normal current
     /\ current_rounded (Accu.Temperature_Imperial_Value current)
                        (Accu.RealFeelTemperature_Imperial_Value current)
                        (Accu.Wind_Speed_Imperial_Value current)
                        (Weather.currentWeather r)
     /\ rounded_number (Finite (Accu.Visibility_Imperial_Value current))
                       (CurrentWeather.visibility (Weather.currentWeather r))
     /\ CurrentWeather.pressure (Weather.currentWeather r)
        = Accu.Pressure_Imperial_Value current)
  /\ Weather.hourlyForecast r = []
  /\ Forall2 (fun day d =>
                daily_rounded (Accu.Temperature_Maximum_Value day)
                              (Accu.Temperature_Minimum_Value day) d
                /\ Daily.precipitation d
                   = Finite (Accu.Day_PrecipitationProbability day))
             (Accu.DailyForecasts forecast) (Weather.dailyForecast r).

(** The row passes the test of the lookup on both axes, as the runtime
    computes it. *)
Definition passes_test (lat lon : float) (loc : Binary64.Location) : Prop :=
  near_binary64 (Binary64.latitude loc) lat = true
  /\ near_binary64 (Binary64.longitude loc) lon = true.



(** The world [W] with another geocoder. *)
Definition with_geocoder (W : World)
    (geocoder : string -> Completion (list Geocoded.t)) : World :=
  {| StringToNumber := StringToNumber W;
     lowerCase := lowerCase W;
     toLocaleTimeString := toLocaleTimeString W;
     toLocaleDateString := toLocaleDateString W;
     randomUUID := randomUUID W;
     geocoding_direct := geocoder;
     owm_weather := owm_weather W;
     owm_forecast := owm_forecast W;
     weatherapi_forecast := weatherapi_forecast W;
     accu_geoposition := accu_geoposition W;
     accu_currentconditions := accu_currentconditions W;
     accu_daily10day := accu_daily10day W |}.

(* ------------------------------------------------------------------ *)
(** ** Sample data *)

Definition springfield : Location.t :=
  {| Location.id := "loc-1"; Location.name := "Springfield";
     Location.latitude := 39.7817; Location.longitude := (-89.6501);
     Location.country := Some "US"%string; Location.state := Some "Illinois"%string |}.

Definition boston : Location.t :=
  {| Location.id := "loc-2"; Location.name := "Boston";
     Location.latitude := 42.3601; Location.longitude := (-71.0589);
     Location.country := Some "US"%string; Location.state := Some "Massachusetts"%string |}.

Definition palm_springs : Location.t :=
  {| Location.id := "loc-3"; Location.name := "PALM SPRINGS";
     Location.latitude := 33.8303; Location.longitude := (-116.5453);
     Location.country := Some "US"%string; Location.state := None |}.

Definition emmen : Location.t :=
  {| Location.id := "loc-4"; Location.name := "Emmen";
     Location.latitude := 52.7858; Location.longitude := 6.8976;
     Location.country := None; Location.state := None |}.

(** A cache of four places, two of them with "spring" in the name. *)
Definition sample_cache : MemStorage :=
  {| weatherData := [];
     locations := [ ("loc-1", springfield); ("loc-2", boston);
                    ("loc-3", palm_springs); ("loc-4", emmen) ]%string |}.

(** A place at the given coordinates. *)
Definition place (id name : string) (lat lon : Q) : Location.t :=
  {| Location.id := id; Location.name := name;
     Location.latitude := lat; Location.longitude := lon;
     Location.country := None; Location.state := None |}.

(** A cache holding that one place. *)
Definition cache_with_place (id name : string) (lat lon : Q) : MemStorage :=
  {| weatherData := []; locations := [ (id, place id name lat lon) ] |}.

Definition rain : Owm.condition :=
  {| Owm.main := "Rain"; Owm.description := "light rain"; Owm.icon := "10d" |}.

Definition seattle_owm_current : Owm.current :=
  {| Owm.name := "Seattle"; Owm.sys_country := "US";
     Owm.main_temp := 52.37; Owm.main_humidity := 81;
     Owm.main_feels_like := 51.50; Owm.main_pressure := 1014;
     Owm.weather := [rain];
     Owm.wind_speed := 8.05; Owm.wind_deg := 200;
     Owm.visibility := Some 10000%float |}.

Definition seattle_owm_item : Owm.item :=
  {| Owm.dt := 1700000000%float; Owm.item_main_temp := 51.49;
     Owm.item_main_temp_max := 53.50; Owm.item_main_temp_min := 48.25;
     Owm.item_weather := [rain]; Owm.pop := Some 0.37%float |}.

(** Forty three-hourly entries, as the five-day forecast has them. *)
Definition seattle_owm_forecast : Owm.forecast :=
  {| Owm.list := repeat seattle_owm_item 40 |}.

Definition seattle_hour : WeatherApi.hour_entry :=
  {| WeatherApi.time := "2023-11-14 00:00"; WeatherApi.temp_f := 51.3;
     WeatherApi.hour_condition_text := "Light rain";
     WeatherApi.hour_condition_icon := "//cdn.weatherapi.com/weather/64x64/night/296.png";
     WeatherApi.chance_of_rain := 71 |}.

Definition seattle_day : WeatherApi.forecastday :=
  {| WeatherApi.date := "2023-11-14";
     WeatherApi.day_condition_text := "Moderate rain";
     WeatherApi.day_condition_icon := "//cdn.weatherapi.com/weather/64x64/day/302.png";
     WeatherApi.day_maxtemp_f := 53.6; WeatherApi.day_mintemp_f := 46.8;
     WeatherApi.day_daily_chance_of_rain := 89;
     WeatherApi.hour := repeat seattle_hour 24 |}.

(** A WeatherAPI reply carrying [days] forecast days. *)
Definition seattle_weatherapi (days : nat) : WeatherApi.data :=
  {| WeatherApi.location_name := "Seattle";
     WeatherApi.location_country := "United States of America";
     WeatherApi.current_temp_f := 52.1;
     WeatherApi.current_condition_text := "Light rain";
     WeatherApi.current_humidity := 83;
     WeatherApi.current_wind_mph := 8.1;
     WeatherApi.current_wind_degree := 190;
     WeatherApi.current_vis_miles := 6.2;
     WeatherApi.current_feelslike_f := 50.7;
     WeatherApi.current_uv := 1;
     WeatherApi.current_pressure_mb := 1014;
     WeatherApi.forecast_forecastday := repeat seattle_day days |}.

Definition seattle_position : Accu.position :=
  {| Accu.Key := "351409"; Accu.LocalizedName := "Seattle";
     Accu.Country_LocalizedName := "United States" |}.

Definition seattle_conditions : Accu.conditions :=
  {| Accu.Temperature_Imperial_Value := 52; Accu.WeatherText := "Rain";
     Accu.RelativeHumidity := 80; Accu.Wind_Speed_Imperial_Value := 8.6;
     Accu.Wind_Direction_Degrees := 203; Accu.Visibility_Imperial_Value := 6.5;
     Accu.RealFeelTemperature_Imperial_Value := 48.5; Accu.UVIndex := 1;
     Accu.Pressure_Imperial_Value := 29.95 |}.

Definition seattle_accu_day : Accu.daily :=
  {| Accu.Date := "2023-11-14T07:00:00-08:00"; Accu.Day_IconPhrase := "Rain";
     Accu.Day_LongPhrase := "Cloudy with periods of rain";
     Accu.Temperature_Maximum_Value := 53.5;
     Accu.Temperature_Minimum_Value := 46.5;
     Accu.Day_PrecipitationProbability := 90; Accu.Day_Icon := 18 |}.

(** An AccuWeather forecast carrying [days] days. *)
Definition seattle_accu_forecast (days : nat) : Accu.forecast :=
  {| Accu.DailyForecasts := repeat seattle_accu_day days |}.

(** A world whose requests all fail. *)
Definition offline : World :=
  {| StringToNumber := fun _ => NaN;
     lowerCase := ascii_toLowerCase;
     toLocaleTimeString := fun _ => "12 AM"%string;
     toLocaleDateString := fun _ => "Tue"%string;
     randomUUID := fun n => String (ascii_of_nat (97 + n)) EmptyString;
     geocoding_direct := fun _ => Throw;
     owm_weather := fun _ _ => Throw;
     owm_forecast := fun _ _ => Throw;
     weatherapi_forecast := fun _ _ => Throw;
     accu_geoposition := fun _ _ => Throw;
     accu_currentconditions := fun _ => Throw;
     accu_daily10day := fun _ => Throw |}.

(** The scenario of the specification: the first two providers answer for
    Seattle, the third one fails. *)
Definition seattle_world : World :=
  {| StringToNumber := fun text =>
       if (text =? "47.6062")%string then Finite 47.6062
       else if (text =? "-122.3321")%string then Finite (-122.3321)
       else NaN;
     lowerCase := ascii_toLowerCase;
     toLocaleTimeString := fun _ => "12 AM"%string;
     toLocaleDateString := fun _ => "Tue"%string;
     randomUUID := fun n => String (ascii_of_nat (97 + n)) EmptyString;
     geocoding_direct := fun _ => Throw;
     owm_weather := fun _ _ => Normal seattle_owm_current;
     owm_forecast := fun _ _ => Normal seattle_owm_forecast;
     weatherapi_forecast := fun _ _ => Normal (seattle_weatherapi 3);
     accu_geoposition := fun _ _ => Throw;
     accu_currentconditions := fun _ => Normal [seattle_conditions];
     accu_daily10day := fun _ => Normal (seattle_accu_forecast 10) |}.

Definition seattle : Params :=
  {| lat := Finite 47.6062;
     lon := Finite (-122.3321);
     location := "undefined" |}.

(** Two scored records with the same accuracy, and a weaker one between. *)
Definition scored_as (source : string) (accuracy : Q) : Scored.t :=
  {| Scored.weather :=
       {| Weather.source := source; Weather.location := "Seattle, US";
          Weather.latitude := lat seattle; Weather.longitude := lon seattle;
          Weather.currentWeather :=
            {| CurrentWeather.temperature := 52; CurrentWeather.condition := "Rain";
               CurrentWeather.description := "light rain"; CurrentWeather.humidity := 81;
               CurrentWeather.windSpeed := 8; CurrentWeather.windDirection := 200;
               CurrentWeather.visibility := 6; CurrentWeather.feelsLike := 52;
               CurrentWeather.uvIndex := 6; CurrentWeather.pressure := 1014 |};
          Weather.hourlyForecast := []; Weather.dailyForecast := [] |};
     Scored.accuracy := JNumber accuracy |}.

Definition tied_records : list Scored.t :=
  [ scored_as "weatherapi" 0.87;
    scored_as "openweathermap" 0.9;
    scored_as "accuweather" 0.90 ]%string.

(* ------------------------------------------------------------------ *)
(** ** The rest of [MemStorage] *)

(** [m.get(key)]. *)
Definition Map_get {V : Type} (key : string) (m : Map V) : option V :=
  assoc key m.

(** [Array.from(m.keys())]. *)
Definition Map_keys {V : Type} (m : Map V) : list string := map fst m.

Section Users.

(** What [insertUser] carries (the store takes it as [any]) and the
    [username] property read from it, when it has one that is a text. *)
Variable Fields : Type.
Variable username_of : Fields -> option string.

(** [{ ...insertUser, id }]. *)
Record User : Type := Build_User
  { user_fields : Fields;
    user_id : string }.

(** [getUser(id)]. *)
Definition getUser (id : string) (users : Map User) : option User :=
  Map_get id users.

(** [user.username === username]. *)
Definition has_username (username : string) (user : User) : bool :=
  match username_of (user_fields user) with
  | Some name => String.eqb name username
  | None => false
  end.

(** [getUserByUsername(username)]. *)
Definition getUserByUsername (username : string) (users : Map User)
  : option User :=
  find (has_username username) (Map_values users).

(** [createUser(insertUser)], [id] being what [randomUUID()] returned. *)
Definition createUser (id : string) (insertUser : Fields) (users : Map User)
  : User * Map User :=
  let user := {| user_fields := insertUser; user_id := id |} in
  (user, Map_set id user users).

End Users.

Arguments Build_User {Fields} user_fields user_id.
Arguments user_fields {Fields} u.
Arguments user_id {Fields} u.
Arguments getUser {Fields} id users.
Arguments has_username {Fields} username_of username user.
Arguments getUserByUsername {Fields} username_of username users.
Arguments createUser {Fields} id insertUser users.

(** A row of [weather_data] as [MemStorage] keeps it:
    [{ ...data, id, fetchedAt }], the stamp in epoch milliseconds ([null] is
    allowed by the row type). *)
Module WeatherData.
Record t : Type := Build
  { id : string;
    data : Scored.t;
    fetchedAt : option Z }.
End WeatherData.

(** [saveWeatherData(data)] with its stamp: [id] is what [randomUUID()]
    returned and [now] what [new Date()] read. *)
Definition saveWeatherData_at (now : Z) (id : string) (data : Scored.t)
    (rows : Map WeatherData.t) : WeatherData.t * Map WeatherData.t :=
  let weatherData :=
    {| WeatherData.id := id;
       WeatherData.data := data;
       WeatherData.fetchedAt := Some now |} in
  (weatherData, Map_set id weatherData rows).

(** The rows without their stamps, as the routes' model of the store has
    them. *)
Definition erase_stamps (rows : Map WeatherData.t) : Map Scored.t :=
  map (fun binding => (fst binding, WeatherData.data (snd binding))) rows.

(** [new Date(w.fetchedAt || 0).getTime()]. *)
Definition fetchedAt_time (w : WeatherData.t) : Z :=
  match WeatherData.fetchedAt w with
  | Some stamp => stamp
  | None => 0%Z
  end.

(** The comparator of [getWeatherData]:
    [(a, b) => time(b) - time(a)]. *)
Definition newest_first (a b : WeatherData.t) : Z :=
  (fetchedAt_time b - fetchedAt_time a)%Z.

(** Insertion of [x], which stood before all of [sorted], into [sorted]:
    [x] goes before the first element it does not have to follow. *)
Fixpoint insert_sorted {A : Type} (compare : A -> A -> Z) (x : A)
    (sorted : list A) : list A :=
  match sorted with
  | [] => [x]
  | y :: rest =>
      if (compare x y <=? 0)%Z then x :: y :: rest
      else y :: insert_sorted compare x rest
  end.

(** [array.sort(compare)].  The sort of the language is stable, so with a
    comparator that orders by a key its result is the stable sort, whatever
    algorithm the engine runs; it is computed here by insertion. *)
Definition Array_sort {A : Type} (compare : A -> A -> Z) (array : list A)
  : list A :=
  fold_right (insert_sorted compare) [] array.

(** [!source] for the optional [source] argument. *)
Definition no_source (source : option string) : bool :=
  match source with
  | None => true
  | Some text => (text =? "")%string
  end.

(** The callback of the filter in [getWeatherData]. *)
Definition weather_matches (location : string) (source : option string)
    (weather : WeatherData.t) : bool :=
  (Weather.location (Scored.weather (WeatherData.data weather)) =? location)%string
  && (no_source source
      || match source with
         | Some text =>
             (Weather.source (Scored.weather (WeatherData.data weather)) =? text)%string
         | None => false
         end).

(** [getWeatherData(location, source)]. *)
Definition getWeatherData (location : string) (source : option string)
    (rows : Map WeatherData.t) : list WeatherData.t :=
  let data := filter (weather_matches location source) (Map_values rows) in
  Array_sort newest_first data.

(* ------------------------------------------------------------------ *)
(** ** More predicates and samples *)

(** The row [saveLocation] builds from [location] under [id]. *)
Definition location_row (id : string) (location : InsertLocation.t) : Location.t :=
  fst (saveLocation id location empty_storage).

(** The rows a run of [save_locations] builds, the first one under the
    [drawn]-th identifier. *)
Fixpoint location_rows (W : World) (drawn : nat) (found : list InsertLocation.t)
  : list Location.t :=
  match found with
  | [] => []
  | location :: rest =>
      location_row (randomUUID W drawn) location :: location_rows W (S drawn) rest
  end.

(** The [count] identifiers drawn from [drawn] on are distinct and none of
    them is among [keys]. *)
Definition fresh_ids (W : World) (drawn count : nat) (keys : list string) : Prop :=
  NoDup (map (randomUUID W) (seq drawn count) ++ keys).

(** [newer] was fetched no earlier than [older]. *)
Definition not_older (newer older : WeatherData.t) : Prop :=
  (fetchedAt_time older <= fetchedAt_time newer)%Z.

(** The reply of [fetchWeatherFromSource] for [source] is a record. *)
Definition succeeded (W : World) (params : Params) (source : string) : bool :=
  match fetchWeatherFromSource W source params with
  | Some _ => true
  | None => false
  end.

(** An entry of a forecast reply names its conditions. *)
Definition has_conditions (item : Owm.item) : Prop := Owm.item_weather item <> [].

(** Three stamped rows: two for Seattle fetched at 1000 and 3000, one for
    Boston fetched at 2000. *)
Definition stamped (id location source : string) (stamp : Z) : WeatherData.t :=
  {| WeatherData.id := id;
     WeatherData.data :=
       {| Scored.weather :=
            {| Weather.source := source; Weather.location := location;
               Weather.latitude := lat seattle; Weather.longitude := lon seattle;
               Weather.currentWeather :=
                 Weather.currentWeather (Scored.weather (scored_as source 0.9));
               Weather.hourlyForecast := []; Weather.dailyForecast := [] |};
          Scored.accuracy := JNumber 0.9 |};
     WeatherData.fetchedAt := Some stamp |}.

Definition stamped_rows : Map WeatherData.t :=
  [ ("w1", stamped "w1" "Seattle, US" "openweathermap" 1000);
    ("w2", stamped "w2" "Boston, US" "openweathermap" 2000);
    ("w3", stamped "w3" "Seattle, US" "weatherapi" 3000) ]%string.

(** A world whose geocoder knows one Springfield. *)
Definition springfield_geocoded : Geocoded.t :=
  {| Geocoded.name := "Springfield"; Geocoded.lat := 39.7817;
     Geocoded.lon := (-89.6501); Geocoded.country := Some "US"%string;
     Geocoded.state := Some "Illinois"%string |}.

Definition geocoder_up : World :=
  with_geocoder offline (fun _ => Normal [springfield_geocoded]).

(** The world [W] with another lowering. *)
Definition with_lowerCase (W : World) (lower : Lowering) : World :=
  {| StringToNumber := StringToNumber W;
     lowerCase := lower;
     toLocaleTimeString := toLocaleTimeString W;
     toLocaleDateString := toLocaleDateString W;
     randomUUID := randomUUID W;
     geocoding_direct := geocoding_direct W;
     owm_weather := owm_weather W;
     owm_forecast := owm_forecast W;
     weatherapi_forecast := weatherapi_forecast W;
     accu_geoposition := accu_geoposition W;
     accu_currentconditions := accu_currentconditions W;
     accu_daily10day := accu_daily10day W |}.

(** What the runtime's tables do to the texts of the next sample: the Greek
    word for street in capitals ends in a capital sigma, which at the end of
    a word becomes the final sigma; a capital sigma standing alone becomes
    the ordinary small sigma.  Elsewhere the ASCII lowering. *)
Definition lower_with_final_sigma : Lowering :=
  fun text =>
    if (text =? "ΟΔΟΣ")%string then "οδος"%string
    else if (text =? "Σ")%string then "σ"%string
    else ascii_toLowerCase text.

(** A street of Athens, cached under its name in capitals. *)
Definition odos : Location.t :=
  {| Location.id := "loc-9"; Location.name := "ΟΔΟΣ";
     Location.latitude := 37.9838; Location.longitude := 23.7275;
     Location.country := Some "GR"%string; Location.state := None |}.

Definition cache_with_odos : MemStorage :=
  {| weatherData := []; locations := [ ("loc-9", odos) ]%string |}.

(** A place at binary64 coordinates, and the cache that holds it. *)
Definition place64 (id name : string) (lat lon : float) : Binary64.Location :=
  {| Binary64.id := id; Binary64.name := name;
     Binary64.latitude := lat; Binary64.longitude := lon;
     Binary64.country := None; Binary64.state := None |}.

Definition cache64_with_place (id name : string) (lat lon : float)
  : Map Binary64.Location :=
  [ (id, place64 id name lat lon) ].

(** A WeatherAPI reply of one day and one hour whose chances of rain are
    not whole percentages. *)
Definition showers_hour : WeatherApi.hour_entry :=
  {| WeatherApi.time := "2023-11-14 00:00"; WeatherApi.temp_f := 51.3;
     WeatherApi.hour_condition_text := "Patchy rain possible";
     WeatherApi.hour_condition_icon := "//cdn.weatherapi.com/weather/64x64/night/176.png";
     WeatherApi.chance_of_rain := 12.5 |}.

Definition showers_day : WeatherApi.forecastday :=
  {| WeatherApi.date := "2023-11-14";
     WeatherApi.day_condition_text := "Patchy rain possible";
     WeatherApi.day_condition_icon := "//cdn.weatherapi.com/weather/64x64/day/176.png";
     WeatherApi.day_maxtemp_f := 53.6; WeatherApi.day_mintemp_f := 46.8;
     WeatherApi.day_daily_chance_of_rain := 12.5;
     WeatherApi.hour := [showers_hour] |}.

Definition showers_weatherapi : WeatherApi.data :=
  {| WeatherApi.location_name := "Seattle";
     WeatherApi.location_country := "United States of America";
     WeatherApi.current_temp_f := 52.1;
     WeatherApi.current_condition_text := "Patchy rain possible";
     WeatherApi.current_humidity := 83;
     WeatherApi.current_wind_mph := 8.1;
     WeatherApi.current_wind_degree := 190;
     WeatherApi.current_vis_miles := 6.2;
     WeatherApi.current_feelslike_f := 50.7;
     WeatherApi.current_uv := 1;
     WeatherApi.current_pressure_mb := 1014;
     WeatherApi.forecast_forecastday := [showers_day] |}.

(* ------------------------------------------------------------------ *)
(** ** Numbers *)

Lemma Qltb_lt (a b : Q) : Qltb a b = true <-> a < b.
Proof.
  unfold Qltb. rewrite negb_true_iff. split; intro H.
  - apply Qnot_le_lt. intro Hle. apply Qle_bool_iff in Hle. congruence.
  - destruct (Qle_bool b a) eqn:E; [| reflexivity].
    apply Qle_bool_iff in E. exfalso. apply (Qlt_not_le _ _ H E).
Qed.

Lemma Qltb_ge (a b : Q) : Qltb a b = false <-> b <= a.
Proof.
  unfold Qltb. rewrite negb_false_iff. apply Qle_bool_iff.
Qed.

Lemma round_is_integer (x : Q) : is_integer (Math.round x).
Proof. exists (Qfloor (x + (1 # 2))). reflexivity. Qed.

Lemma round_is_nearest (x : Q) : nearest_integer x (Math.round x).
Proof.
  split; [apply round_is_integer |].
  unfold Math.round.
  pose proof (Qfloor_le (x + (1 # 2))) as Hlo.
  pose proof (Qlt_floor (x + (1 # 2))) as Hhi.
  rewrite inject_Z_plus in Hhi. change (inject_Z 1) with 1 in Hhi.
  apply Qabs_Qle_condition. split; lra.
Qed.

(** A number with a fractional part is not whole. *)
Lemma fraction_not_integer (n : Z) (d : positive) :
  (n mod Zpos d <> 0)%Z -> ~ is_integer (n # d).
Proof.
  intros Hmod [z Hz]. unfold Qeq in Hz. simpl in Hz.
  apply Hmod. rewrite Z.mul_1_r in Hz. subst n. apply Z.mod_mul. discriminate.
Qed.


(* ------------------------------------------------------------------ *)
(** ** Strings *)

Lemma prefix_spec (p s : string) :
  String.prefix p s = true <-> exists rest, s = (p ++ rest)%string.
Proof.
  revert s. induction p as [| c p IH]; intros s.
  - split; [intros _; exists s; reflexivity | intros _; destruct s; reflexivity].
  - destruct s as [| d s]; simpl.
    + split; [discriminate | intros [rest H]; discriminate].
    + destruct (ascii_dec c d) as [-> | Hne].
      * rewrite IH. split; intros [rest H]; exists rest.
        -- now rewrite H.
        -- now inversion H.
      * split; [discriminate | intros [rest H]; inversion H; congruence].
Qed.

Lemma includes_unfold (s t : string) :
  includes s t =
  if String.prefix t s then true
  else match s with
       | EmptyString => false
       | String _ rest => includes rest t
       end.
Proof. destruct s; reflexivity. Qed.

Lemma includes_spec (s t : string) :
  includes s t = true <-> exists before after, s = (before ++ t ++ after)%string.
Proof.
  induction s as [| c s IH]; rewrite includes_unfold.
  - destruct (String.prefix t "") eqn:E.
    + split; [intros _ | reflexivity].
      apply prefix_spec in E. destruct E as [rest E]. now exists ""%string, rest.
    + split; [discriminate |].
      intros [before [after H]].
      destruct before; [| discriminate]. simpl in H.
      assert (String.prefix t "" = true) by (apply prefix_spec; now exists after).
      congruence.
  - destruct (String.prefix t (String c s)) eqn:E.
    + split; [intros _ | reflexivity].
      apply prefix_spec in E. destruct E as [rest E]. now exists ""%string, rest.
    + rewrite IH. split.
      * intros [before [after H]]. exists (String c before), after. now rewrite H.
      * intros [before [after H]]. destruct before as [| d before].
        -- simpl in H.
           assert (String.prefix t (String c s) = true)
             by (apply prefix_spec; now exists after).
           congruence.
        -- inversion H. now exists before, after.
Qed.

Lemma includes_empty (s : string) : includes s "" = true.
Proof. destruct s; reflexivity. Qed.

Lemma ascii_toLowerCase_app (a b : string) :
  ascii_toLowerCase (a ++ b) = (ascii_toLowerCase a ++ ascii_toLowerCase b)%string.
Proof. induction a as [| c a IH]; simpl; [reflexivity | now rewrite IH]. Qed.

Lemma ascii_toLowerCase_split (s x y : string) :
  ascii_toLowerCase s = (x ++ y)%string ->
  exists a b,
    s = (a ++ b)%string /\ ascii_toLowerCase a = x /\ ascii_toLowerCase b = y.
Proof.
  revert s. induction x as [| c x IH]; intros s H.
  - exists ""%string, s. auto.
  - destruct s as [| d s]; [discriminate |].
    simpl in H. inversion H as [[Hc Hrest]].
    destruct (IH _ Hrest) as [a [b [Hs [Ha Hb]]]].
    exists (String d a), b. simpl. rewrite Hs, Ha. auto.
Qed.

Lemma is_ascii_app (a b : string) :
  is_ascii (a ++ b) = is_ascii a && is_ascii b.
Proof.
  induction a as [| c a IH]; simpl; [reflexivity |].
  now rewrite IH, andb_assoc.
Qed.

Lemma append_empty_r (s : string) : (s ++ "")%string = s.
Proof. induction s as [| c s IH]; simpl; [reflexivity | now rewrite IH]. Qed.

(** The test of [searchLocations] on one text: the lower-case form of the
    text has the lower-case form of the query as a substring. *)
Lemma includes_lowercase_spec (lower : Lowering) (text query : string) :
  includes (toLowerCase lower text) (toLowerCase lower query) = true
  <-> lowered_contains lower text query.
Proof. apply includes_spec. Qed.

Lemma optional_includes_spec (lower : Lowering) (field : option string)
    (query : string) :
  optional_includes lower field (toLowerCase lower query) = true
  <-> field_lowered_contains lower field query.
Proof.
  unfold optional_includes, field_lowered_contains. destruct field as [text |].
  - rewrite includes_lowercase_spec. split.
    + intro H. now exists text.
    + intros [t [Ht H]]. now inversion Ht; subst.
  - split; [discriminate | intros [t [Ht _]]; discriminate].
Qed.

Lemma location_matches_spec (lower : Lowering) (query : string) (loc : Location.t) :
  location_matches lower (toLowerCase lower query) loc = true
  <-> matches_lowered lower query loc.
Proof.
  unfold location_matches, matches_lowered.
  rewrite !orb_true_iff, includes_lowercase_spec, !optional_includes_spec.
  tauto.
Qed.

Lemma location_matches_empty (lower : Lowering) (loc : Location.t) :
  location_matches lower (toLowerCase lower "") loc = true.
Proof. unfold location_matches. simpl. now rewrite includes_empty. Qed.

Lemma lowered_contains_refl (lower : Lowering) (text : string) :
  lowered_contains lower text text.
Proof. exists ""%string, ""%string. simpl. now rewrite append_empty_r. Qed.

Lemma contains_ignoring_case_empty (lower : Lowering) (text : string) :
  contains_ignoring_case lower text "".
Proof. exists ""%string, ""%string, text. split; reflexivity. Qed.

(** On ASCII texts the test of the code is the case-insensitive substring
    test. *)
Lemma lowered_contains_ascii (lower : Lowering) (text query : string) :
  lowers_ascii lower ->
  is_ascii text = true ->
  is_ascii query = true ->
  lowered_contains lower text query <-> contains_ignoring_case lower text query.
Proof.
  intros Hlower Htext Hquery. unfold lowered_contains, contains_ignoring_case.
  rewrite (Hlower text Htext), (Hlower query Hquery). split.
  - intros [before [after H]].
    destruct (ascii_toLowerCase_split _ _ _ H) as [a [rest [Hs [Ha Hrest]]]].
    destruct (ascii_toLowerCase_split _ _ _ Hrest) as [m [b [Hr [Hm Hb]]]].
    exists a, m, b. subst text rest. split; [reflexivity |].
    rewrite !is_ascii_app in Htext.
    apply andb_true_iff in Htext. destruct Htext as [_ Htext].
    apply andb_true_iff in Htext. destruct Htext as [Hmiddle _].
    now rewrite (Hlower m Hmiddle).
  - intros [before [middle [after [Hs Hm]]]]. subst text.
    rewrite !is_ascii_app in Htext.
    apply andb_true_iff in Htext. destruct Htext as [_ Htext].
    apply andb_true_iff in Htext. destruct Htext as [Hmiddle _].
    rewrite (Hlower middle Hmiddle) in Hm.
    exists (ascii_toLowerCase before), (ascii_toLowerCase after).
    now rewrite !ascii_toLowerCase_app, Hm.
Qed.

Lemma field_lowered_contains_ascii (lower : Lowering) (field : option string)
    (query : string) :
  lowers_ascii lower ->
  match field with Some text => is_ascii text | None => true end = true ->
  is_ascii query = true ->
  field_lowered_contains lower field query <-> field_contains lower field query.
Proof.
  intros Hlower Hfield Hquery. unfold field_lowered_contains, field_contains.
  destruct field as [text |].
  - split; intros [t [Ht H]]; inversion Ht; subst t; exists text;
      (split; [reflexivity |]);
      now apply (lowered_contains_ascii lower text query Hlower Hfield Hquery).
  - split; intros [t [Ht _]]; discriminate.
Qed.

Lemma matches_lowered_ascii (lower : Lowering) (query : string) (loc : Location.t) :
  lowers_ascii lower ->
  is_ascii query = true ->
  ascii_fields loc = true ->
  matches_lowered lower query loc <-> matches_query lower query loc.
Proof.
  intros Hlower Hquery Hfields. unfold ascii_fields in Hfields.
  apply andb_true_iff in Hfields. destruct Hfields as [Hfields Hstate].
  apply andb_true_iff in Hfields. destruct Hfields as [Hname Hcountry].
  unfold matches_lowered, matches_query.
  rewrite (lowered_contains_ascii lower _ query Hlower Hname Hquery).
  rewrite (field_lowered_contains_ascii lower _ query Hlower Hcountry Hquery).
  rewrite (field_lowered_contains_ascii lower _ query Hlower Hstate Hquery).
  tauto.
Qed.

Lemma filter_all {A : Type} (p : A -> bool) (l : list A) :
  (forall x, In x l -> p x = true) -> filter p l = l.
Proof.
  induction l as [| x l IH]; intros H; simpl; [reflexivity |].
  rewrite (H x (or_introl eq_refl)). f_equal. apply IH. intros y Hy. apply H. now right.
Qed.

Lemma filter_none {A : Type} (p : A -> bool) (l : list A) :
  (forall x, In x l -> p x = false) -> filter p l = [].
Proof.
  induction l as [| x l IH]; intros H; simpl; [reflexivity |].
  rewrite (H x (or_introl eq_refl)). apply IH. intros y Hy. apply H. now right.
Qed.

(* ------------------------------------------------------------------ *)
(** ** The store *)

Lemma searchLocations_filter (lower : Lowering) (query : string) (st : MemStorage) :
  exists keep : Location.t -> bool,
    (forall loc, keep loc = true <-> matches_lowered lower query loc)
    /\ searchLocations lower query st = filter keep (Map_values (locations st)).
Proof.
  exists (location_matches lower (toLowerCase lower query)). split.
  - intro loc. apply location_matches_spec.
  - reflexivity.
Qed.

Lemma searchLocations_In (lower : Lowering) (query : string) (st : MemStorage)
    (loc : Location.t) :
  In loc (searchLocations lower query st)
  <-> In loc (Map_values (locations st)) /\ matches_lowered lower query loc.
Proof.
  unfold searchLocations. rewrite filter_In, location_matches_spec. tauto.
Qed.

Lemma searchLocations_no_match (lower : Lowering) (query : string)
    (st : MemStorage) :
  (forall loc, In loc (Map_values (locations st)) -> ~ matches_lowered lower query loc) ->
  searchLocations lower query st = [].
Proof.
  intro H. unfold searchLocations. apply filter_none. intros loc Hin.
  destruct (location_matches lower (toLowerCase lower query) loc) eqn:E; [| reflexivity].
  apply location_matches_spec in E. now apply H in Hin.
Qed.

Lemma searchLocations_all (lower : Lowering) (st : MemStorage) :
  searchLocations lower "" st = Map_values (locations st).
Proof.
  unfold searchLocations. apply filter_all. intros loc _.
  apply location_matches_empty.
Qed.

(** The two examples of the proximity test computed in binary64, as the
    runtime does: (40.7135, -74.0058) is near (40.7128, -74.0060) on both
    axes, (40.73, -74.02) on neither. *)
Lemma proximity_examples_binary64 :
  near_binary64 40.7135 40.7128 = true
  /\ near_binary64 (-74.0058) (-74.0060) = true
  /\ near_binary64 40.73 40.7128 = false
  /\ near_binary64 (-74.02) (-74.0060) = false.
Proof. repeat split; vm_compute; reflexivity. Qed.



Lemma assoc_In {V : Type} (key : string) (l : list (string * V)) (v : V) :
  assoc key l = Some v -> In (key, v) l.
Proof.
  induction l as [| [k w] rest IH]; simpl; [discriminate |].
  destruct (String.eqb_spec k key) as [-> | _].
  - intro H. inversion H. now left.
  - intro H. right. now apply IH.
Qed.

(** C3 (the code departs from the claim).  The three providers get their
    table values, a text that names nothing gets the baseline 0.85, and no
    text gets zero (or any falsy value); but a text that names a member of
    [Object.prototype], such as "constructor", gets that member, which is
    not a number. *)
Theorem getWeatherAccuracy_inherited_member (location : string) :
  getWeatherAccuracy "openweathermap" location = JNumber 0.94
  /\ getWeatherAccuracy "weatherapi" location = JNumber 0.87
  /\ getWeatherAccuracy "accuweather" location = JNumber 0.89
  /\ (forall source,
        assoc source accuracyMap = None ->
        assoc source Object_prototype = None ->
        getWeatherAccuracy source location = JNumber 0.85)
  /\ (forall source,
        (exists q, In (source, q) accuracyMap
                   /\ getWeatherAccuracy source location = JNumber q)
        \/ (exists member, In (source, member) Object_prototype
                           /\ getWeatherAccuracy source location = member)
        \/ getWeatherAccuracy source location = JNumber 0.85)
  /\ (forall source, truthy (getWeatherAccuracy source location) = true)
  /\ getWeatherAccuracy "provider-D" location = JNumber 0.85
  /\ getWeatherAccuracy "constructor" location = JFunction "Object"
  /\ getWeatherAccuracy "toString" location = JFunction "toString"
  /\ getWeatherAccuracy "__proto__" location = JObjectPrototype.
Proof.
  split; [reflexivity |]. split; [reflexivity |]. split; [reflexivity |].
  split; [| split; [| split; [| repeat split]]].
  - intros source Hown Hinherited.
    unfold getWeatherAccuracy, get_property. now rewrite Hown, Hinherited.
  - intro source. unfold getWeatherAccuracy, get_property.
    destruct (assoc source accuracyMap) as [q |] eqn:Hown.
    + destruct (truthy (JNumber q)); [| now right; right].
      left. exists q. split; [now apply assoc_In | reflexivity].
    + destruct (assoc source Object_prototype) as [member |] eqn:Hinherited;
        [| now right; right].
      destruct (truthy member); [| now right; right].
      right; left. exists member. split; [now apply assoc_In | reflexivity].
  - intro source. unfold getWeatherAccuracy.
    destruct (get_property accuracyMap source) as [v |]; [| reflexivity].
    destruct (truthy v) eqn:E; [exact E | reflexivity].
Qed.

(* ------------------------------------------------------------------ *)
(** ** The selection *)

Lemma accuracy_lt_le (a b : Scored.t) : accuracy_lt a b -> accuracy_le a b.
Proof.
  unfold accuracy_lt, accuracy_le.
  destruct (Scored.accuracy a), (Scored.accuracy b); try tauto. apply Qlt_le_weak.
Qed.

Lemma accuracy_lt_le_trans (a b c : Scored.t) :
  accuracy_lt a b -> accuracy_le b c -> accuracy_lt a c.
Proof.
  unfold accuracy_lt, accuracy_le.
  destruct (Scored.accuracy a), (Scored.accuracy b), (Scored.accuracy c);
    try tauto. apply Qlt_le_trans.
Qed.

Lemma accuracy_le_lt_trans (a b c : Scored.t) :
  accuracy_le a b -> accuracy_lt b c -> accuracy_lt a c.
Proof.
  unfold accuracy_lt, accuracy_le.
  destruct (Scored.accuracy a), (Scored.accuracy b), (Scored.accuracy c);
    try tauto. apply Qle_lt_trans.
Qed.

Lemma accuracy_le_refl (a : Scored.t) :
  (exists q, Scored.accuracy a = JNumber q) -> accuracy_le a a.
Proof. intros [q H]. unfold accuracy_le. rewrite H. apply Qle_refl. Qed.

Lemma accuracy_lt_not_eq (a b : Scored.t) : accuracy_lt a b -> ~ accuracy_eq a b.
Proof.
  unfold accuracy_lt, accuracy_eq.
  destruct (Scored.accuracy a), (Scored.accuracy b); try tauto.
  intros Hlt Heq. rewrite Heq in Hlt. apply (Qlt_irrefl _ Hlt).
Qed.

Lemma all_scored_In (l : list Scored.t) :
  all_scored l -> forall r, In r l -> exists q, Scored.accuracy r = JNumber q.
Proof. unfold all_scored. rewrite Forall_forall. auto. Qed.

(** One step of the [reduce]: the newcomer wins only when strictly better. *)
Lemma more_accurate_cases (prev current : Scored.t) :
  (exists q, Scored.accuracy prev = JNumber q) ->
  (exists q, Scored.accuracy current = JNumber q) ->
  (more_accurate prev current = current /\ accuracy_lt prev current)
  \/ (more_accurate prev current = prev /\ accuracy_le current prev).
Proof.
  intros [p Hp] [c Hc]. unfold more_accurate, accuracy_lt, accuracy_le.
  rewrite Hp, Hc. simpl. destruct (Qltb p c) eqn:E.
  - left. split; [reflexivity | now apply Qltb_lt].
  - right. split; [reflexivity | now apply Qltb_ge].
Qed.

(** The [reduce] returns the first record of greatest accuracy: every record
    before it is strictly weaker, no record after it is stronger. *)
Lemma fold_more_accurate (rest : list Scored.t) :
  forall first,
    all_scored (first :: rest) ->
    exists before after,
      first :: rest = before ++ fold_left more_accurate rest first :: after
      /\ (forall r, In r before -> accuracy_lt r (fold_left more_accurate rest first))
      /\ (forall r, In r after -> accuracy_le r (fold_left more_accurate rest first)).
Proof.
  induction rest as [| y ys IH]; intros first Hall.
  - exists [], []. simpl. repeat split; intros r [].
  - inversion Hall as [| ? ? Hfirst Hrest]; subst.
    inversion Hrest as [| ? ? Hy Hys]; subst. simpl.
    destruct (more_accurate_cases first y Hfirst Hy) as [[Hstep Hlt] | [Hstep Hle]];
      rewrite Hstep.
    + destruct (IH y Hrest) as [before [after [Heq [Hb Ha]]]].
      remember (fold_left more_accurate ys y) as best eqn:Hbest.
      exists (first :: before), after. split; [simpl; now rewrite Heq |].
      split; [| exact Ha].
      assert (Hybest : accuracy_le y best).
      { assert (Hiny : In y (before ++ best :: after))
          by (rewrite <- Heq; now left).
        apply in_app_or in Hiny. destruct Hiny as [Hin | [Hin | Hin]].
        - apply accuracy_lt_le. now apply Hb.
        - rewrite Hin. now apply accuracy_le_refl.
        - now apply Ha. }
      intros r [Hr | Hin]; [| now apply Hb].
      rewrite <- Hr. exact (accuracy_lt_le_trans _ _ _ Hlt Hybest).
    + assert (Hall' : all_scored (first :: ys)) by (constructor; assumption).
      destruct (IH first Hall') as [before [after [Heq [Hb Ha]]]].
      remember (fold_left more_accurate ys first) as best eqn:Hbest.
      destruct before as [| b before]; simpl in Heq; injection Heq as Hhead Htail.
      * exists [], (y :: ys). simpl. split; [now rewrite <- Hhead |].
        split; [intros r [] |].
        intros r [Hr | Hin].
        -- rewrite <- Hr, <- Hhead. exact Hle.
        -- apply Ha. now rewrite <- Htail.
      * exists (b :: y :: before), after. simpl. split; [now rewrite <- Hhead, Htail |].
        split; [| exact Ha].
        assert (Hfb : accuracy_lt b best) by (apply Hb; now left).
        intros r [Hr | [Hr | Hin]].
        -- now rewrite <- Hr.
        -- rewrite <- Hr. rewrite Hhead in Hle.
           exact (accuracy_le_lt_trans _ _ _ Hle Hfb).
        -- apply Hb. simpl. now right.
Qed.

Lemma select_mostAccurate_decomposition (l : list Scored.t) :
  l <> [] ->
  all_scored l ->
  exists best before after,
    select_mostAccurate l = Normal best
    /\ l = before ++ best :: after
    /\ (forall r, In r before -> accuracy_lt r best)
    /\ (forall r, In r after -> accuracy_le r best).
Proof.
  intros Hne Hall. destruct l as [| first rest]; [congruence |].
  destruct (fold_more_accurate rest first Hall) as [before [after [Heq [Hb Ha]]]].
  exists (fold_left more_accurate rest first), before, after.
  repeat split; assumption.
Qed.

Lemma select_mostAccurate_maximum (l : list Scored.t) :
  l <> [] ->
  all_scored l ->
  exists best,
    select_mostAccurate l = Normal best
    /\ In best l
    /\ (forall r, In r l -> accuracy_le r best).
Proof.
  intros Hne Hall.
  destruct (select_mostAccurate_decomposition l Hne Hall)
    as [best [before [after [Hsel [Heq [Hb Ha]]]]]].
  exists best. split; [exact Hsel |]. split.
  - rewrite Heq. apply in_or_app. right. now left.
  - intros r Hin. rewrite Heq in Hin.
    apply in_app_or in Hin. destruct Hin as [Hin | [<- | Hin]].
    + apply accuracy_lt_le. now apply Hb.
    + apply accuracy_le_refl.
      apply (all_scored_In l Hall). rewrite Heq.
      apply in_or_app. right. now left.
    + now apply Ha.
Qed.

(** C4.  On a non-empty sequence of scored records the selection returns
    the record at the first position that carries the greatest accuracy:
    no record is more accurate, and every record as accurate as it stands at
    the same or a later position.  Being a function of the sequence, it
    returns the same record each time. *)
Theorem select_mostAccurate_first_of_ties (l : list Scored.t) :
  l <> [] ->
  all_scored l ->
  exists best i,
    select_mostAccurate l = Normal best
    /\ nth_error l i = Some best
    /\ (forall j r, nth_error l j = Some r -> accuracy_le r best)
    /\ (forall j r, nth_error l j = Some r -> accuracy_eq r best -> (i <= j)%nat)
    /\ (forall again, select_mostAccurate l = Normal again -> again = best).
Proof.
  intros Hne Hall.
  destruct (select_mostAccurate_decomposition l Hne Hall)
    as [best [before [after [Hsel [Heq [Hb Ha]]]]]].
  exists best, (List.length before). split; [exact Hsel |]. split; [| split; [| split]].
  - rewrite Heq, nth_error_app2, Nat.sub_diag; [reflexivity | lia].
  - intros j r Hj. apply nth_error_In in Hj. rewrite Heq in Hj.
    apply in_app_or in Hj. destruct Hj as [Hin | [<- | Hin]].
    + apply accuracy_lt_le. now apply Hb.
    + apply accuracy_le_refl.
      apply (all_scored_In l Hall). rewrite Heq.
      apply in_or_app. right. now left.
    + now apply Ha.
  - intros j r Hj Htie.
    destruct (Nat.lt_ge_cases j (List.length before)) as [Hlt | Hge]; [| exact Hge].
    exfalso. rewrite Heq, nth_error_app1 in Hj by exact Hlt.
    apply nth_error_In in Hj. exact (accuracy_lt_not_eq _ _ (Hb r Hj) Htie).
  - intros again Hagain. rewrite Hsel in Hagain. now inversion Hagain.
Qed.

(** The sample with a tie: the second and third records are equally
    accurate, and the second one is selected. *)
Lemma select_mostAccurate_first_of_ties_witness :
  tied_records <> []
  /\ all_scored tied_records
  /\ select_mostAccurate tied_records = Normal (scored_as "openweathermap" 0.9)
  /\ exists best i,
       select_mostAccurate tied_records = Normal best
       /\ nth_error tied_records i = Some best
       /\ (forall j r, nth_error tied_records j = Some r -> accuracy_le r best)
       /\ (forall j r, nth_error tied_records j = Some r -> accuracy_eq r best -> (i <= j)%nat)
       /\ (forall again, select_mostAccurate tied_records = Normal again -> again = best).
Proof.
  assert (Hne : tied_records <> []) by discriminate.
  assert (Hall : all_scored tied_records)
    by (repeat constructor; eexists; reflexivity).
  split; [exact Hne |]. split; [exact Hall |]. split; [reflexivity |].
  exact (select_mostAccurate_first_of_ties tied_records Hne Hall).
Defined.

(* ------------------------------------------------------------------ *)
(** ** The adapters *)

(** Case analysis on the steps of an adapter that completed normally. *)
Ltac unbind H :=
  repeat match type of H with
         | context [bind ?m _] =>
             let E := fresh "E" in
             destruct m eqn:E; cbn [bind] in H; try discriminate H
         end.

Lemma map_indexed_length {A B : Type} (callback : A -> nat -> Completion B)
    (array : list A) :
  forall index out,
    map_indexed callback index array = Normal out ->
    List.length out = List.length array.
Proof.
  induction array as [| item rest IH]; intros index out H; simpl in H.
  - now inversion H.
  - unbind H. inversion H; subst. simpl. f_equal. eapply IH. eassumption.
Qed.

Lemma map_indexed_Forall2 {A B : Type} (callback : A -> nat -> Completion B)
    (array : list A) :
  forall index out,
    map_indexed callback index array = Normal out ->
    Forall2 (fun item y => exists i, callback item i = Normal y) array out.
Proof.
  induction array as [| item rest IH]; intros index out H; simpl in H.
  - inversion H. constructor.
  - unbind H. inversion H; subst. constructor.
    + now exists index.
    + eapply IH. eassumption.
Qed.

Lemma slice0_length {A : Type} (n : nat) (array : list A) :
  (List.length (slice0 n array) <= n)%nat.
Proof. unfold slice0. rewrite length_firstn. lia. Qed.

Lemma OpenWeatherMap_record_header (W : World) (lat lon : number)
    (current : Owm.current) (forecast : Owm.forecast) (r : Weather.t) :
  OpenWeatherMap_record W lat lon current forecast = Normal r ->
  Weather.source r = "openweathermap"%string
  /\ Weather.latitude r = lat /\ Weather.longitude r = lon.
Proof.
  unfold OpenWeatherMap_record. intro H. unbind H. inversion H. auto.
Qed.

Lemma WeatherAPI_record_header (W : World) (lat lon : number)
    (data : WeatherApi.data) (r : Weather.t) :
  WeatherAPI_record W lat lon data = Normal r ->
  Weather.source r = "weatherapi"%string
  /\ Weather.latitude r = lat /\ Weather.longitude r = lon.
Proof.
  unfold WeatherAPI_record. intro H. unbind H. inversion H. auto.
Qed.

Lemma AccuWeather_record_header (W : World) (lat lon : number)
    (position : Accu.position) (currentRes : list Accu.conditions)
    (forecast : Accu.forecast) (r : Weather.t) :
  AccuWeather_record W lat lon position currentRes forecast = Normal r ->
  Weather.source r = "accuweather"%string
  /\ Weather.latitude r = lat /\ Weather.longitude r = lon.
Proof.
  unfold AccuWeather_record. intro H. unbind H. inversion H. auto.
Qed.

(** A record that [fetchWeatherFromSource] returns names the source it was
    asked for, one of the three, and carries the coordinates it was given. *)
Lemma fetchWeatherFromSource_header (W : World) (source : string)
    (params : Params) (r : Weather.t) :
  fetchWeatherFromSource W source params = Some r ->
  In source weatherSources
  /\ Weather.source r = source
  /\ Weather.latitude r = lat params
  /\ Weather.longitude r = lon params.
Proof.
  unfold fetchWeatherFromSource, weatherSources. intro H.
  destruct (String.eqb_spec source "openweathermap") as [-> | _].
  { unfold fetchOpenWeatherMap in H. unbind H.
    destruct (OpenWeatherMap_record _ _ _ _ _) eqn:Er; [| discriminate].
    inversion H; subst.
    destruct (OpenWeatherMap_record_header _ _ _ _ _ _ Er) as [Hs [Hla Hlo]].
    simpl. auto. }
  destruct (String.eqb_spec source "weatherapi") as [-> | _].
  { unfold fetchWeatherAPI in H. unbind H.
    destruct (WeatherAPI_record _ _ _ _) eqn:Er; [| discriminate].
    inversion H; subst.
    destruct (WeatherAPI_record_header _ _ _ _ _ Er) as [Hs [Hla Hlo]].
    simpl. auto. }
  destruct (String.eqb_spec source "accuweather") as [-> | _].
  { unfold fetchAccuWeather in H. unbind H.
    destruct (AccuWeather_record _ _ _ _ _ _) eqn:Er; [| discriminate].
    inversion H; subst.
    destruct (AccuWeather_record_header _ _ _ _ _ _ _ Er) as [Hs [Hla Hlo]].
    simpl. auto 6. }
  discriminate.
Qed.

Lemma known_source_scored (source location : string) :
  In source weatherSources ->
  exists q, getWeatherAccuracy source location = JNumber q.
Proof.
  unfold weatherSources. intros [<- | [<- | [<- | []]]]; eexists; reflexivity.
Qed.

(* ------------------------------------------------------------------ *)
(** ** The fan-out *)

Lemma successfulResults_In (W : World) (params : Params) (record : Weather.t) :
  In record (successfulResults W params) <-> successful_record W params record.
Proof.
  unfold successfulResults, weatherResults, successful_record.
  induction weatherSources as [| source rest IH]; simpl.
  - split; [tauto | intros [s [[] _]]].
  - rewrite in_app_iff, IH. split.
    + intros [Hhere | [s [Hin Hs]]].
      * exists source. split; [now left |].
        destruct (fetchWeatherFromSource W source params); simpl in Hhere;
          [destruct Hhere as [-> | []]; reflexivity | destruct Hhere].
      * exists s. split; [now right | exact Hs].
    + intros [s [[<- | Hin] Hs]].
      * left. rewrite Hs. now left.
      * right. now exists s.
Qed.

Lemma successfulResults_empty (W : World) (params : Params) :
  successfulResults W params = []
  <-> forall source, In source weatherSources ->
                     fetchWeatherFromSource W source params = None.
Proof.
  split.
  - intros Hnil source Hin.
    destruct (fetchWeatherFromSource W source params) as [r |] eqn:E; [| reflexivity].
    assert (Hr : In r (successfulResults W params))
      by (apply successfulResults_In; now exists source).
    rewrite Hnil in Hr. destruct Hr.
  - intro Hall. destruct (successfulResults W params) as [| r rest] eqn:E; [reflexivity |].
    assert (Hr : successful_record W params r)
      by (apply successfulResults_In; rewrite E; now left).
    destruct Hr as [source [Hin Hs]]. rewrite (Hall source Hin) in Hs. discriminate.
Qed.

Lemma weatherWithAccuracy_scored (W : World) (params : Params) :
  all_scored (map with_accuracy (successfulResults W params)).
Proof.
  unfold all_scored. rewrite Forall_forall. intros scored Hin.
  apply in_map_iff in Hin. destruct Hin as [r [<- Hr]].
  apply successfulResults_In in Hr. destruct Hr as [source [Hin Hs]].
  destruct (fetchWeatherFromSource_header W source params r Hs) as [_ [Hsrc _]].
  simpl. rewrite Hsrc. now apply known_source_scored.
Qed.

Lemma map_weather_with_accuracy (l : list Weather.t) :
  map Scored.weather (map with_accuracy l) = l.
Proof. induction l as [| r l IH]; simpl; [reflexivity | now rewrite IH]. Qed.

(** What [aggregate] answers, by whether any adapter returned a record. *)
Lemma aggregate_cases (W : World) (params : Params) (st : MemStorage) :
  (successfulResults W params = []
   /\ aggregate W params st
      = (status_json 503 "Failed to fetch weather data from all sources", st))
  \/ (successfulResults W params <> []
      /\ exists best,
           select_mostAccurate (map with_accuracy (successfulResults W params))
           = Normal best
           /\ In best (map with_accuracy (successfulResults W params))
           /\ (forall r, In r (map with_accuracy (successfulResults W params)) ->
                         accuracy_le r best)
           /\ aggregate W params st
              = (json {| sources := map with_accuracy (successfulResults W params);
                         mostAccurate := best;
                         aggregated := best |},
                 save_weather W 0 (map with_accuracy (successfulResults W params)) st)).
Proof.
  unfold aggregate.
  destruct (successfulResults W params) as [| r rest] eqn:E.
  - left. split; reflexivity.
  - right. split; [discriminate |].
    assert (Hne : map with_accuracy (r :: rest) <> []) by discriminate.
    pose proof (weatherWithAccuracy_scored W params) as Hall. rewrite E in Hall.
    destruct (select_mostAccurate_maximum _ Hne Hall) as [best [Hsel [Hin Hmax]]].
    exists best. split; [exact Hsel |]. split; [exact Hin |]. split; [exact Hmax |].
    cbn [List.length Nat.eqb]. now rewrite Hsel.
Qed.

(** C1.  When at least one of the three adapters returns a record, the
    aggregation answers with a body: its [sources] are non-empty and are
    exactly the records the adapters returned, in adapter order, each with
    its accuracy attached; [mostAccurate] is one of [sources] and no member
    of [sources] has a greater accuracy. *)
Theorem aggregate_succeeds (W : World) (params : Params) (st : MemStorage) :
  some_adapter_succeeds W params ->
  exists body st',
    aggregate W params st = (json body, st')
    /\ sources body <> []
    /\ map Scored.weather (sources body) = successfulResults W params
    /\ (forall record,
          In record (map Scored.weather (sources body))
          <-> successful_record W params record)
    /\ In (mostAccurate body) (sources body)
    /\ (forall r, In r (sources body) -> accuracy_le r (mostAccurate body)).
Proof.
  intros [source [record [Hin Hfetch]]].
  destruct (aggregate_cases W params st)
    as [[Hnil _] | [Hne [best [_ [Hbest [Hmax Hagg]]]]]].
  - exfalso.
    assert (Hr : In record (successfulResults W params))
      by (apply successfulResults_In; now exists source).
    rewrite Hnil in Hr. destruct Hr.
  - eexists. eexists. split; [exact Hagg |]. cbn [sources mostAccurate].
    split.
    { intro Hmap. apply Hne. now apply map_eq_nil in Hmap. }
    split; [apply map_weather_with_accuracy |].
    split; [| split; assumption].
    intro r. rewrite map_weather_with_accuracy. apply successfulResults_In.
Qed.

(** The scenario of the specification: two of three providers answer, both
    records are returned and the first provider's one is selected. *)
Lemma aggregate_succeeds_witness :
  some_adapter_succeeds seattle_world seattle
  /\ exists body st',
       aggregate seattle_world seattle empty_storage = (json body, st')
       /\ sources body <> []
       /\ map Scored.weather (sources body) = successfulResults seattle_world seattle
       /\ (forall record,
             In record (map Scored.weather (sources body))
             <-> successful_record seattle_world seattle record)
       /\ In (mostAccurate body) (sources body)
       /\ (forall r, In r (sources body) -> accuracy_le r (mostAccurate body)).
Proof.
  assert (H : some_adapter_succeeds seattle_world seattle).
  { exists "weatherapi"%string. eexists. split.
    - simpl. auto.
    - vm_compute. reflexivity. }
  split; [exact H |].
  exact (aggregate_succeeds seattle_world seattle empty_storage H).
Defined.

(** C2.  The aggregation answers 503 exactly when no adapter returned a
    record, that is when all three failed; it has no other failure answer;
    a body it answers with has non-empty [sources] holding the successful
    records and its [mostAccurate] among them; and one adapter succeeding is
    enough for a body, whatever the other two did. *)
Theorem aggregate_fails_iff_all_fail (W : World) (params : Params) (st : MemStorage) :
  (fst (aggregate W params st)
   = status_json 503 "Failed to fetch weather data from all sources"
   <-> List.length (successfulResults W params) = 0%nat)
  /\ (List.length (successfulResults W params) = 0%nat
      <-> forall source, In source weatherSources ->
                         fetchWeatherFromSource W source params = None)
  /\ (forall code message,
        fst (aggregate W params st) = status_json code message ->
        code = 503%nat /\ successfulResults W params = [])
  /\ (forall body,
        fst (aggregate W params st) = json body ->
        sources body <> []
        /\ map Scored.weather (sources body) = successfulResults W params
        /\ In (mostAccurate body) (sources body))
  /\ (forall source record,
        In source weatherSources ->
        fetchWeatherFromSource W source params = Some record ->
        exists body, fst (aggregate W params st) = json body
                     /\ In record (map Scored.weather (sources body))).
Proof.
  pose proof (aggregate_cases W params st) as Hcases.
  split; [| split; [| split; [| split]]].
  - rewrite length_zero_iff_nil.
    destruct Hcases as [[Hnil Hagg] | [Hne [best [_ [_ [_ Hagg]]]]]]; rewrite Hagg; simpl.
    + tauto.
    + split; [discriminate | tauto].
  - rewrite length_zero_iff_nil. apply successfulResults_empty.
  - intros code message H.
    destruct Hcases as [[Hnil Hagg] | [Hne [best [_ [_ [_ Hagg]]]]]];
      rewrite Hagg in H; simpl in H.
    + inversion H. auto.
    + discriminate.
  - intros body H.
    destruct Hcases as [[Hnil Hagg] | [Hne [best [_ [Hbest [_ Hagg]]]]]];
      rewrite Hagg in H; simpl in H.
    + discriminate.
    + inversion H; subst; cbn [sources mostAccurate].
      split; [| split].
      * intro Hmap. apply Hne. now apply map_eq_nil in Hmap.
      * apply map_weather_with_accuracy.
      * exact Hbest.
  - intros source record Hin Hfetch.
    assert (Hr : In record (successfulResults W params))
      by (apply successfulResults_In; now exists source).
    destruct Hcases as [[Hnil Hagg] | [Hne [best [_ [_ [_ Hagg]]]]]];
      rewrite Hagg; simpl.
    + rewrite Hnil in Hr. destruct Hr.
    + eexists. split; [reflexivity |]. cbn [sources].
      now rewrite map_weather_with_accuracy.
Qed.

(** With every provider down the answer is 503; with two of three up it is
    a body. *)
Lemma aggregate_fails_iff_all_fail_witness :
  fst (aggregate offline seattle empty_storage)
  = status_json 503 "Failed to fetch weather data from all sources"
  /\ List.length (successfulResults offline seattle) = 0%nat
  /\ List.length (successfulResults seattle_world seattle) = 2%nat
  /\ exists body, fst (aggregate seattle_world seattle empty_storage) = json body.
Proof.
  split.
  - apply (proj1 (aggregate_fails_iff_all_fail offline seattle empty_storage)).
    reflexivity.
  - split; [reflexivity |]. split; [reflexivity |].
    eexists. vm_compute. reflexivity.
Defined.

(* ------------------------------------------------------------------ *)
(** ** What the adapters do to the provider's numbers *)

Lemma nearest_integer_Qeq (x y y' : Q) :
  y == y' -> nearest_integer x y -> nearest_integer x y'.
Proof.
  intros Heq [[z Hz] Habs]. split.
  - exists z. now rewrite <- Heq.
  - now rewrite <- Heq.
Qed.

Lemma round_binary64_rounded (x : float) :
  rounded_number (value x) (Math.round_binary64 x).
Proof.
  unfold Math.round_binary64. destruct (value x) as [q | | s]; simpl.
  - apply round_is_nearest.
  - exact I.
  - reflexivity.
Qed.

Lemma owm_hourly_rounded (W : World) (item : Owm.item) (index : nat) (h : Hourly.t) :
  owm_hourly W item index = Normal h ->
  nearest_integer (Owm.item_main_temp item) (Hourly.temperature h)
  /\ percent_of_pop (Owm.pop item) (Hourly.precipitation h).
Proof.
  unfold owm_hourly. intro H. unbind H. inversion H; simpl.
  split; [apply round_is_nearest | apply round_binary64_rounded].
Qed.

Lemma owm_daily_rounded (W : World) (item : Owm.item) (index : nat) (d : Daily.t) :
  owm_daily W item index = Normal d ->
  daily_rounded (Owm.item_main_temp_max item) (Owm.item_main_temp_min item) d
  /\ percent_of_pop (Owm.pop item) (Daily.precipitation d).
Proof.
  unfold owm_daily, daily_rounded. intro H. unbind H. inversion H; simpl.
  split; [split; apply round_is_nearest | apply round_binary64_rounded].
Qed.

Lemma OpenWeatherMap_record_rounded (W : World) (lat lon : number)
    (current : Owm.current) (forecast : Owm.forecast) (r : Weather.t) :
  OpenWeatherMap_record W lat lon current forecast = Normal r ->
  OpenWeatherMap_rounded current forecast r.
Proof.
  unfold OpenWeatherMap_record. intro H. unbind H. inversion H; subst r.
  unfold OpenWeatherMap_rounded, current_rounded. cbn [Weather.currentWeather
    Weather.hourlyForecast Weather.dailyForecast CurrentWeather.temperature
    CurrentWeather.feelsLike CurrentWeather.windSpeed CurrentWeather.visibility
    CurrentWeather.pressure].
  split; [repeat split; apply round_is_nearest |].
  split; [reflexivity |].
  split; [intro Hnone; now rewrite Hnone |].
  split; [reflexivity |]. split.
  - eapply Forall2_impl; [| eapply map_indexed_Forall2; eassumption].
    intros item h [i Hi]. exact (owm_hourly_rounded W item i h Hi).
  - eapply Forall2_impl; [| eapply map_indexed_Forall2; eassumption].
    intros item d [i Hi]. exact (owm_daily_rounded W item i d Hi).
Qed.

(** Equality of two numbers, decided. *)
Lemma number_eq_dec (a b : number) : {a = b} + {a <> b}.
Proof.
  decide equality.
  - destruct q as [n d], q0 as [n' d'].
    destruct (Z.eq_dec n n') as [-> | Hn]; [| right; congruence].
    destruct (Pos.eq_dec d d') as [-> | Hd]; [now left | right; congruence].
  - apply Bool.bool_dec.
Defined.

(** Up to 10000 m, the most the provider reports, the binary64 computation
    of the visibility gives the nearest whole number of tenths of a mile,
    over ten. *)
Lemma miles_to_a_tenth_nearest (metres : Z) :
  (0 <= metres <= 10000)%Z -> nearest_tenth_of_a_mile metres.
Proof.
  intro Hrange.
  assert (Hall : forallb
            (fun m =>
               if number_eq_dec
                    (miles_to_a_tenth (Some (binary64_of_Z (Z.of_nat m))))
                    (value (PrimFloat.div
                              (binary64_of_Z
                                 (Qfloor (Math.round
                                            (inject_Z (Z.of_nat m) / 1609.344 * 10))))
                              10))
               then true else false)
            (seq 0 (Z.to_nat 10001)) = true) by (vm_compute; reflexivity).
  rewrite forallb_forall in Hall.
  specialize (Hall (Z.to_nat metres)). rewrite Z2Nat.id in Hall by lia.
  unfold nearest_tenth_of_a_mile.
  destruct (number_eq_dec _ _) as [Heq | Hne]; [exact Heq |].
  assert (Hin : In (Z.to_nat metres) (seq 0 (Z.to_nat 10001))) by (apply in_seq; lia).
  specialize (Hall Hin). discriminate Hall.
Qed.

Lemma WeatherAPI_record_rounded (W : World) (lat lon : number)
    (data : WeatherApi.data) (r : Weather.t) :
  WeatherAPI_record W lat lon data = Normal r ->
  WeatherAPI_rounded data r.
Proof.
  unfold WeatherAPI_record. intro H. unbind H. inversion H; subst r.
  unfold WeatherAPI_rounded, current_rounded. cbn [Weather.currentWeather
    Weather.hourlyForecast Weather.dailyForecast CurrentWeather.temperature
    CurrentWeather.feelsLike CurrentWeather.windSpeed CurrentWeather.visibility
    CurrentWeather.pressure].
  split; [repeat split; apply round_is_nearest |].
  split; [reflexivity |]. split; [reflexivity |]. split.
  - eexists. split; [eassumption |].
    eapply Forall2_impl; [| eapply map_indexed_Forall2; eassumption].
    intros hour h [i Hi]. inversion Hi; simpl. split; [apply round_is_nearest | reflexivity].
  - eapply Forall2_impl; [| eapply map_indexed_Forall2; eassumption].
    intros day d [i Hi]. inversion Hi; unfold daily_rounded; simpl.
    repeat split; apply round_is_nearest.
Qed.

Lemma AccuWeather_record_rounded (W : World) (lat lon : number)
    (position : Accu.position) (currentRes : list Accu.conditions)
    (forecast : Accu.forecast) (r : Weather.t) :
  AccuWeather_record W lat lon position currentRes forecast = Normal r ->
  AccuWeather_rounded currentRes forecast r.
Proof.
  unfold AccuWeather_record. intro H. unbind H. inversion H; subst r.
  unfold AccuWeather_rounded, current_rounded. cbn [Weather.currentWeather
    Weather.hourlyForecast Weather.dailyForecast CurrentWeather.temperature
    CurrentWeather.feelsLike CurrentWeather.windSpeed CurrentWeather.visibility
    CurrentWeather.pressure].
  split; [| split; [reflexivity |]].
  - eexists. split; [eassumption |].
    split; [repeat split; apply round_is_nearest |].
    split; [apply round_is_nearest | reflexivity].
  - eapply Forall2_impl; [| eapply map_indexed_Forall2; eassumption].
    intros day d [i Hi]. inversion Hi; unfold daily_rounded; simpl.
    repeat split; apply round_is_nearest.
Qed.

(** C6, as the code has it.  Every adapter rounds the temperature, the felt
    temperature, the wind speed and the forecast temperatures to the nearest
    integer and passes the pressure through.  The visibility is rounded to
    the nearest integer by the AccuWeather adapter only: the OpenWeatherMap
    adapter converts metres to miles and keeps one decimal, computing in
    binary64 ([NaN] when the reply has no visibility; for a whole number of
    metres up to 10000 the nearest whole number of tenths, over ten), and
    the WeatherAPI adapter passes it through.  The precipitation is the
    integer nearest to the binary64 product of [pop] and 100 for
    OpenWeatherMap and the provider's value, whole or not, for the other
    two. *)
Theorem adapters_round_displayed_fields (W : World) (lat lon : number) :
  (forall current forecast r,
     OpenWeatherMap_record W lat lon current forecast = Normal r ->
     OpenWeatherMap_rounded current forecast r)
  /\ (forall metres, (0 <= metres <= 10000)%Z -> nearest_tenth_of_a_mile metres)
  /\ (forall data r,
        WeatherAPI_record W lat lon data = Normal r ->
        WeatherAPI_rounded data r)
  /\ (forall position currentRes forecast r,
        AccuWeather_record W lat lon position currentRes forecast = Normal r ->
        AccuWeather_rounded currentRes forecast r).
Proof.
  split; [| split; [| split]].
  - apply OpenWeatherMap_record_rounded.
  - apply miles_to_a_tenth_nearest.
  - apply WeatherAPI_record_rounded.
  - apply AccuWeather_record_rounded.
Qed.

(** The sample OpenWeatherMap replies: 52.37 degrees become 52, 8.05 mph
    become 8, 10000 m become the binary64 value next to 6.2 miles and a
    [pop] of 0.37 becomes 37 percent.  A [pop] of 0.015 becomes 2 percent:
    the binary64 product is 1.5. *)
Lemma adapters_round_displayed_fields_witness :
  exists r,
    OpenWeatherMap_record offline (lat seattle) (lon seattle)
      seattle_owm_current seattle_owm_forecast = Normal r
    /\ CurrentWeather.temperature (Weather.currentWeather r) = 52
    /\ CurrentWeather.windSpeed (Weather.currentWeather r) = 8
    /\ CurrentWeather.visibility (Weather.currentWeather r) = value 6.2
    /\ map Hourly.precipitation (Weather.hourlyForecast r) = repeat (Finite 37) 24
    /\ percent (Some 0.015%float) = Finite 2
    /\ OpenWeatherMap_rounded seattle_owm_current seattle_owm_forecast r.
Proof.
  eexists. split; [vm_compute; reflexivity |].
  split; [reflexivity |]. split; [reflexivity |].
  split; [vm_compute; reflexivity |]. split; [vm_compute; reflexivity |].
  split; [vm_compute; reflexivity |].
  apply (proj1 (adapters_round_displayed_fields offline (lat seattle) (lon seattle))).
  vm_compute. reflexivity.
Defined.

(** C6 as stated fails on the visibility and on the precipitation.  For the
    sample replies the WeatherAPI adapter gives a visibility of 6.2 miles
    and the OpenWeatherMap adapter the binary64 value next to 6.2, neither
    an integer; and a chance of rain of 12.5 in a WeatherAPI reply is a
    precipitation of 12.5 in the record, not a whole percentage. *)
Lemma visibility_not_rounded_to_integer :
  (exists r,
     WeatherAPI_record offline (lat seattle) (lon seattle) (seattle_weatherapi 3)
     = Normal r
     /\ CurrentWeather.visibility (Weather.currentWeather r) = Finite 6.2
     /\ ~ is_whole (CurrentWeather.visibility (Weather.currentWeather r)))
  /\ (exists r,
        OpenWeatherMap_record offline (lat seattle) (lon seattle)
          seattle_owm_current seattle_owm_forecast
        = Normal r
        /\ CurrentWeather.visibility (Weather.currentWeather r)
           = Finite (6980579422424269 # 1125899906842624)
        /\ ~ is_whole (CurrentWeather.visibility (Weather.currentWeather r)))
  /\ (exists r,
        WeatherAPI_record offline (lat seattle) (lon seattle) showers_weatherapi
        = Normal r
        /\ map Hourly.precipitation (Weather.hourlyForecast r) = [Finite 12.5]
        /\ map Daily.precipitation (Weather.dailyForecast r) = [Finite 12.5]
        /\ ~ is_whole (Finite 12.5)).
Proof.
  split; [| split].
  - eexists. split; [vm_compute; reflexivity |]. split; [reflexivity |].
    apply fraction_not_integer. discriminate.
  - eexists. split; [vm_compute; reflexivity |]. split; [reflexivity |].
    apply fraction_not_integer. discriminate.
  - eexists. split; [vm_compute; reflexivity |].
    split; [reflexivity |]. split; [reflexivity |].
    apply fraction_not_integer. discriminate.
Qed.

(* ------------------------------------------------------------------ *)
(** ** How long the forecasts are *)

(** C7 (the code departs from the claim).  Every adapter returns at most
    24 hourly points, and the OpenWeatherMap adapter at most 10 daily
    points.  The WeatherAPI and AccuWeather adapters return one daily point
    per forecast day of the reply, without a bound: a reply with 11 (or 12)
    days gives 11 (or 12) daily points. *)
Theorem dailyForecast_unbounded (W : World) (lat lon : number) :
  (forall current forecast r,
     OpenWeatherMap_record W lat lon current forecast = Normal r ->
     (List.length (Weather.hourlyForecast r) <= 24)%nat
     /\ (List.length (Weather.dailyForecast r) <= 10)%nat)
  /\ (forall data r,
        WeatherAPI_record W lat lon data = Normal r ->
        (List.length (Weather.hourlyForecast r) <= 24)%nat
        /\ List.length (Weather.dailyForecast r)
           = List.length (WeatherApi.forecast_forecastday data))
  /\ (forall position currentRes forecast r,
        AccuWeather_record W lat lon position currentRes forecast = Normal r ->
        Weather.hourlyForecast r = []
        /\ List.length (Weather.dailyForecast r)
           = List.length (Accu.DailyForecasts forecast))
  /\ (exists r,
        WeatherAPI_record W lat lon (seattle_weatherapi 11) = Normal r
        /\ List.length (Weather.dailyForecast r) = 11%nat)
  /\ (exists r,
        AccuWeather_record W lat lon seattle_position [seattle_conditions]
          (seattle_accu_forecast 12) = Normal r
        /\ List.length (Weather.dailyForecast r) = 12%nat).
Proof.
  split; [| split; [| split; [| split]]].
  - intros current forecast r H. unfold OpenWeatherMap_record in H.
    unbind H. inversion H; subst r. cbn [Weather.hourlyForecast Weather.dailyForecast].
    split.
    + erewrite map_indexed_length by eassumption. apply slice0_length.
    + erewrite map_indexed_length by eassumption. apply slice0_length.
  - intros data r H. unfold WeatherAPI_record in H.
    unbind H. inversion H; subst r. cbn [Weather.hourlyForecast Weather.dailyForecast].
    split.
    + erewrite map_indexed_length by eassumption. apply slice0_length.
    + eapply map_indexed_length. eassumption.
  - intros position currentRes forecast r H. unfold AccuWeather_record in H.
    unbind H. inversion H; subst r. cbn [Weather.hourlyForecast Weather.dailyForecast].
    split; [reflexivity |]. eapply map_indexed_length. eassumption.
  - eexists. split; reflexivity.
  - eexists. split; reflexivity.
Qed.

(* ------------------------------------------------------------------ *)
(** ** The weather route and a request with a location text only *)

Lemma save_weather_locations (W : World) (records : list Scored.t) :
  forall drawn st, locations (save_weather W drawn records st) = locations st.
Proof.
  induction records as [| r rest IH]; intros drawn st; simpl; [reflexivity |].
  now rewrite IH.
Qed.

Lemma aggregate_locations (W : World) (params : Params) (st : MemStorage) :
  locations (snd (aggregate W params st)) = locations st.
Proof.
  destruct (aggregate_cases W params st)
    as [[_ Hagg] | [_ [best [_ [_ [_ Hagg]]]]]]; rewrite Hagg; simpl.
  - reflexivity.
  - apply save_weather_locations.
Qed.

(** C5 (the code departs from the claim).  A request that carries a
    location text and no coordinates passes the route's check and goes to
    the aggregation with [lat] and [lon] both [NaN]: every record an adapter
    returns carries [NaN] coordinates.  The geocoder plays no part (any
    other geocoder gives the same answer) and the location cache is left as
    it was. *)
Theorem weather_handler_location_only (W : World) (text : string) (st : MemStorage) :
  text <> ""%string ->
  params_of_query W QAbsent QAbsent (QText text)
  = {| lat := NaN; lon := NaN; location := text |}
  /\ weather_handler W QAbsent QAbsent (QText text) st
     = aggregate W {| lat := NaN; lon := NaN; location := text |} st
  /\ (forall source r,
        fetchWeatherFromSource W source
          (params_of_query W QAbsent QAbsent (QText text)) = Some r ->
        Weather.latitude r = NaN /\ Weather.longitude r = NaN)
  /\ (forall geocoder,
        weather_handler (with_geocoder W geocoder) QAbsent QAbsent (QText text) st
        = weather_handler W QAbsent QAbsent (QText text) st)
  /\ locations (snd (weather_handler W QAbsent QAbsent (QText text) st))
     = locations st.
Proof.
  intro Htext.
  assert (Hfalsy : falsy (QText text) = false)
    by (simpl; now apply String.eqb_neq).
  assert (Hrun : weather_handler W QAbsent QAbsent (QText text) st
                 = aggregate W {| lat := NaN; lon := NaN; location := text |} st).
  { unfold weather_handler. rewrite Hfalsy. reflexivity. }
  split; [reflexivity |]. split; [exact Hrun |]. split; [| split].
  - intros source r H.
    destruct (fetchWeatherFromSource_header W source _ r H) as [_ [_ [Hla Hlo]]].
    now rewrite Hla, Hlo.
  - intro geocoder. unfold weather_handler. rewrite Hfalsy. reflexivity.
  - rewrite Hrun. apply aggregate_locations.
Qed.

(** The request [GET /api/weather?location=Seattle]. *)
Lemma weather_handler_location_only_witness :
  "Seattle"%string <> ""%string
  /\ fst (weather_handler offline QAbsent QAbsent (QText "Seattle") empty_storage)
     = status_json 503 "Failed to fetch weather data from all sources"
  /\ weather_handler seattle_world QAbsent QAbsent (QText "Seattle") empty_storage
     = aggregate seattle_world {| lat := NaN; lon := NaN; location := "Seattle" |}
         empty_storage.
Proof.
  assert (H : "Seattle"%string <> ""%string) by discriminate.
  split; [exact H |]. split; [reflexivity |].
  exact (proj1 (proj2 (weather_handler_location_only seattle_world "Seattle"
                         empty_storage H))).
Defined.

(* ------------------------------------------------------------------ *)
(** ** The search route and its fallback *)

(** C9, as the code has it.  When the geocoding request fails, [resolve]
    answers with the cached locations for which the lower-case form of the
    name, country or state has the lower-case form of the query text as a
    substring, both lowered by [toLowerCase]: exactly those, in cache
    order; none when none passes; the cache is left as it was.  For a query
    and rows in ASCII, where lowering goes letter by letter, these are the
    rows that contain the query as a case-insensitive substring.  The route
    then answers with that list (status 200), provided the text passed its
    check. *)
Theorem resolve_falls_back_to_cache (W : World) (q : string) (st : MemStorage) :
  geocoding_direct W q = Throw ->
  resolve W q st = (Cached_locations (searchLocations (lowerCase W) q st), st)
  /\ (exists keep : Location.t -> bool,
        (forall loc, keep loc = true <-> matches_lowered (lowerCase W) q loc)
        /\ searchLocations (lowerCase W) q st
           = filter keep (Map_values (locations st)))
  /\ (forall loc,
        In loc (searchLocations (lowerCase W) q st)
        <-> In loc (Map_values (locations st))
            /\ matches_lowered (lowerCase W) q loc)
  /\ ((forall loc, In loc (Map_values (locations st)) ->
                   ~ matches_lowered (lowerCase W) q loc) ->
      searchLocations (lowerCase W) q st = [])
  /\ (lowers_ascii (lowerCase W) ->
      is_ascii q = true ->
      forall loc,
        ascii_fields loc = true ->
        (In loc (searchLocations (lowerCase W) q st)
         <-> In loc (Map_values (locations st))
             /\ matches_query (lowerCase W) q loc))
  /\ (q <> ""%string ->
      search_handler W (QText q) st
      = (json (Cached_locations (searchLocations (lowerCase W) q st)), st)).
Proof.
  intro Hfail.
  assert (Hres : resolve W q st
                 = (Cached_locations (searchLocations (lowerCase W) q st), st))
    by (unfold resolve; now rewrite Hfail).
  split; [exact Hres |]. split; [apply searchLocations_filter |].
  split; [apply searchLocations_In |]. split; [apply searchLocations_no_match |].
  split.
  - intros Hlower Hq loc Hfields.
    rewrite searchLocations_In.
    now rewrite (matches_lowered_ascii _ q loc Hlower Hq Hfields).
  - intro Hq. unfold search_handler, search_attempt. simpl.
    apply String.eqb_neq in Hq. rewrite Hq, Hres. reflexivity.
Qed.

(** [resolve("Spring")] with the geocoder down, on the sample cache. *)
Lemma resolve_falls_back_to_cache_witness :
  geocoding_direct offline "Spring" = Throw
  /\ resolve offline "Spring" sample_cache
     = (Cached_locations (searchLocations (lowerCase offline) "Spring" sample_cache),
        sample_cache)
  /\ searchLocations (lowerCase offline) "Spring" sample_cache
     = [springfield; palm_springs]
  /\ searchLocations (lowerCase offline) "Zurich" sample_cache = [].
Proof.
  split; [reflexivity |].
  split; [| split; reflexivity].
  exact (proj1 (resolve_falls_back_to_cache offline "Spring" sample_cache eq_refl)).
Defined.

(** C9 as stated fails where lowering depends on the context.  The street
    cached as ΟΔΟΣ contains the query Σ as it stands, yet with the geocoder
    down the search for Σ returns nothing: the name is lowered to οδος,
    with the final sigma, and the query to σ. *)
Lemma fallback_misses_a_final_sigma :
  geocoding_direct (with_lowerCase offline lower_with_final_sigma) "Σ" = Throw
  /\ In odos (Map_values (locations cache_with_odos))
  /\ Location.name odos = ("ΟΔΟ" ++ "Σ" ++ "")%string
  /\ matches_query lower_with_final_sigma "Σ" odos
  /\ resolve (with_lowerCase offline lower_with_final_sigma) "Σ" cache_with_odos
     = (Cached_locations [], cache_with_odos).
Proof.
  split; [reflexivity |]. split; [now left |]. split; [reflexivity |].
  split; [| reflexivity].
  left. exists "ΟΔΟ"%string, "Σ"%string, ""%string. split; reflexivity.
Qed.

(** C10.  The text search matches every cached location when the query is
    the empty text, so [resolve] of the empty text with the geocoder down
    returns the whole cache. *)
Theorem resolve_empty_text_returns_cache (W : World) (st : MemStorage) :
  geocoding_direct W "" = Throw ->
  searchLocations (lowerCase W) "" st = Map_values (locations st)
  /\ (forall loc, In loc (Map_values (locations st)) ->
                  matches_query (lowerCase W) "" loc)
  /\ resolve W "" st = (Cached_locations (Map_values (locations st)), st).
Proof.
  intro Hfail. split; [apply searchLocations_all |]. split.
  - intros loc _. left. apply contains_ignoring_case_empty.
  - unfold resolve. rewrite Hfail. now rewrite searchLocations_all.
Qed.

Lemma resolve_empty_text_returns_cache_witness :
  geocoding_direct offline "" = Throw
  /\ resolve offline "" sample_cache
     = (Cached_locations [springfield; boston; palm_springs; emmen], sample_cache).
Proof.
  split; [reflexivity |].
  exact (proj2 (proj2 (resolve_empty_text_returns_cache offline sample_cache eq_refl))).
Defined.

(** The route itself never hands the empty text to [resolve]: it answers
    400 before the geocoder is asked. *)
Lemma search_handler_rejects_empty_text (W : World) (st : MemStorage) :
  search_handler W (QText "") st
  = (status_json 400 "Query parameter 'q' is required", st)
  /\ search_handler W QAbsent st
     = (status_json 400 "Query parameter 'q' is required", st)
  /\ forall items,
       search_handler W (QList items) st
       = (status_json 400 "Query parameter 'q' is required", st).
Proof. repeat split. Qed.

(* ------------------------------------------------------------------ *)
(** ** Maps *)


Lemma Map_set_fresh {V : Type} (key : string) (v : V) (m : Map V) :
  ~ In key (Map_keys m) -> Map_set key v m = m ++ [(key, v)].
Proof.
  induction m as [| [k old] rest IH]; simpl; intro Hfresh; [reflexivity |].
  destruct (String.eqb_spec k key) as [-> | _]; [tauto |].
  f_equal. apply IH. tauto.
Qed.

Lemma Map_set_present {V : Type} (key : string) (v : V) (m : Map V) :
  In key (Map_keys m) ->
  Map_keys (Map_set key v m) = Map_keys m.
Proof.
  induction m as [| [k old] rest IH]; simpl; intro Hin; [destruct Hin |].
  destruct (String.eqb_spec k key) as [-> | Hne]; [reflexivity |].
  simpl. f_equal. apply IH. destruct Hin; [contradiction | assumption].
Qed.

Lemma Map_get_set_same {V : Type} (key : string) (v : V) (m : Map V) :
  Map_get key (Map_set key v m) = Some v.
Proof.
  unfold Map_get. induction m as [| [k old] rest IH]; simpl.
  - now rewrite String.eqb_refl.
  - destruct (String.eqb_spec k key) as [-> | Hne]; simpl.
    + now rewrite String.eqb_refl.
    + destruct (String.eqb_spec k key); [contradiction | exact IH].
Qed.

Lemma Map_get_set_other {V : Type} (key other : string) (v : V) (m : Map V) :
  other <> key -> Map_get other (Map_set key v m) = Map_get other m.
Proof.
  unfold Map_get. intro Hne. induction m as [| [k old] rest IH]; simpl.
  - destruct (String.eqb_spec key other); [congruence | reflexivity].
  - destruct (String.eqb_spec k key) as [-> | Hk]; simpl.
    + destruct (String.eqb_spec key other); [congruence | reflexivity].
    + destruct (String.eqb_spec k other); [reflexivity | exact IH].
Qed.

Lemma Map_set_NoDup {V : Type} (key : string) (v : V) (m : Map V) :
  NoDup (Map_keys m) -> NoDup (Map_keys (Map_set key v m)).
Proof.
  intro Hnd. destruct (in_dec string_dec key (Map_keys m)) as [Hin | Hfresh].
  - now rewrite Map_set_present.
  - rewrite Map_set_fresh by exact Hfresh. unfold Map_keys in *.
    rewrite map_app. simpl. apply NoDup_app; [exact Hnd | repeat constructor; tauto |].
    intros k Hk [<- | []]. contradiction.
Qed.

Lemma Map_values_set_fresh {V : Type} (key : string) (v : V) (m : Map V) :
  ~ In key (Map_keys m) -> Map_values (Map_set key v m) = Map_values m ++ [v].
Proof.
  intro Hfresh. rewrite Map_set_fresh by exact Hfresh.
  unfold Map_values. now rewrite map_app.
Qed.

Lemma Map_keys_set_fresh {V : Type} (key : string) (v : V) (m : Map V) :
  ~ In key (Map_keys m) -> Map_keys (Map_set key v m) = Map_keys m ++ [key].
Proof.
  intro Hfresh. rewrite Map_set_fresh by exact Hfresh.
  unfold Map_keys. now rewrite map_app.
Qed.

(* ------------------------------------------------------------------ *)
(** ** Users *)

(** A user just created is what [getUser] returns for its identifier, with
    the fields it was created from; every other identifier reads as before. *)
Theorem createUser_then_getUser (Fields : Type) (id : string)
    (insertUser : Fields) (users : Map (User Fields)) :
  getUser id (snd (createUser id insertUser users))
  = Some (fst (createUser id insertUser users))
  /\ user_id (fst (createUser id insertUser users)) = id
  /\ user_fields (fst (createUser id insertUser users)) = insertUser
  /\ (forall other,
        other <> id ->
        getUser other (snd (createUser id insertUser users)) = getUser other users).
Proof.
  unfold getUser, createUser. simpl. split; [apply Map_get_set_same |].
  split; [reflexivity |]. split; [reflexivity |].
  intros other Hne. now apply Map_get_set_other.
Qed.

Lemma find_app {A : Type} (p : A -> bool) (l l' : list A) :
  find p (l ++ l') = match find p l with
                     | Some x => Some x
                     | None => find p l'
                     end.
Proof.
  induction l as [| x l IH]; simpl; [reflexivity |].
  destruct (p x); [reflexivity | exact IH].
Qed.

(** User names are not kept unique: creating a user under a name that is
    taken succeeds, and [getUserByUsername] goes on returning the user that
    was created first; the new user is returned only for a name nobody had. *)
Theorem createUser_keeps_first_username (Fields : Type)
    (username_of : Fields -> option string) (id username : string)
    (insertUser : Fields) (users : Map (User Fields)) :
  ~ In id (Map_keys users) ->
  Map_values (snd (createUser id insertUser users))
  = Map_values users ++ [fst (createUser id insertUser users)]
  /\ getUserByUsername username_of username (snd (createUser id insertUser users))
     = match getUserByUsername username_of username users with
       | Some first => Some first
       | None =>
           if has_username username_of username (fst (createUser id insertUser users))
           then Some (fst (createUser id insertUser users))
           else None
       end.
Proof.
  intro Hfresh. unfold getUserByUsername, createUser. simpl.
  rewrite Map_values_set_fresh by exact Hfresh. split; [reflexivity |].
  rewrite find_app. simpl. reflexivity.
Qed.

(** Two users called "ada": the first one stays the answer. *)
Lemma createUser_keeps_first_username_witness :
  ~ In "u2"%string (Map_keys (snd (createUser "u1" "ada"%string [])))
  /\ getUserByUsername Some "ada"
       (snd (createUser "u2" "ada"%string (snd (createUser "u1" "ada"%string []))))
     = Some {| user_fields := "ada"%string; user_id := "u1" |}.
Proof.
  assert (H : ~ In "u2"%string (Map_keys (snd (createUser "u1" "ada"%string []))))
    by (simpl; intros [E | []]; discriminate E).
  split; [exact H |].
  rewrite (proj2 (createUser_keeps_first_username string Some "u2" "ada" "ada"%string
                    (snd (createUser "u1" "ada"%string [])) H)).
  reflexivity.
Defined.

(* ------------------------------------------------------------------ *)
(** ** The location cache *)





(** The store never merges places: under a new identifier a saved location
    becomes one more row at the end of the cache, whether or not a location
    of the same place is already there. *)
Theorem saveLocation_appends_a_row (id : string) (location : InsertLocation.t)
    (st : MemStorage) :
  ~ In id (Map_keys (locations st)) ->
  Map_values (locations (snd (saveLocation id location st)))
  = Map_values (locations st) ++ [fst (saveLocation id location st)]
  /\ Map_keys (locations (snd (saveLocation id location st)))
     = Map_keys (locations st) ++ [id]
  /\ Location.id (fst (saveLocation id location st)) = id
  /\ weatherData (snd (saveLocation id location st)) = weatherData st.
Proof.
  intro Hfresh. simpl.
  rewrite Map_values_set_fresh, Map_keys_set_fresh by exact Hfresh. auto.
Qed.

(** Springfield saved a second time is a fifth row of the sample cache. *)
Lemma saveLocation_appends_a_row_witness :
  ~ In "loc-5"%string (Map_keys (locations sample_cache))
  /\ getLocationByCoords 39.7817 (-89.6501) sample_cache = Some springfield
  /\ List.length
       (Map_values
          (locations
             (snd (saveLocation "loc-5"
                     (location_of_geocoded springfield_geocoded) sample_cache))))
     = 5%nat.
Proof.
  assert (H : ~ In "loc-5"%string (Map_keys (locations sample_cache)))
    by (simpl; intros [E | [E | [E | [E | []]]]]; discriminate E).
  split; [exact H |]. split; [reflexivity |].
  rewrite (proj1 (saveLocation_appends_a_row "loc-5"
                    (location_of_geocoded springfield_geocoded) sample_cache H)).
  reflexivity.
Defined.

(** A location saved under a new identifier is found by a search for its
    own name; for any query the earlier results stay, in their order, and
    the new row follows them if it matches. *)
Theorem saveLocation_then_searchLocations (lower : Lowering) (id query : string)
    (location : InsertLocation.t) (st : MemStorage) :
  ~ In id (Map_keys (locations st)) ->
  searchLocations lower query (snd (saveLocation id location st))
  = searchLocations lower query st
    ++ (if location_matches lower (toLowerCase lower query)
             (fst (saveLocation id location st))
        then [fst (saveLocation id location st)] else [])
  /\ In (fst (saveLocation id location st))
        (searchLocations lower (InsertLocation.name location)
                         (snd (saveLocation id location st))).
Proof.
  intro Hfresh.
  assert (Hvalues : Map_values (locations (snd (saveLocation id location st)))
                    = Map_values (locations st) ++ [fst (saveLocation id location st)])
    by (simpl; now rewrite Map_values_set_fresh).
  split.
  - unfold searchLocations. rewrite Hvalues, filter_app. reflexivity.
  - apply searchLocations_In. split.
    + rewrite Hvalues. apply in_or_app. right. now left.
    + left. simpl. apply lowered_contains_refl.
Qed.

Lemma saveLocation_then_searchLocations_witness :
  ~ In "loc-5"%string (Map_keys (locations sample_cache))
  /\ searchLocations ascii_toLowerCase "SPRING"
       (snd (saveLocation "loc-5" (location_of_geocoded springfield_geocoded)
               sample_cache))
     = [springfield; palm_springs;
        location_row "loc-5" (location_of_geocoded springfield_geocoded)].
Proof.
  assert (H : ~ In "loc-5"%string (Map_keys (locations sample_cache)))
    by (simpl; intros [E | [E | [E | [E | []]]]]; discriminate E).
  split; [exact H |].
  rewrite (proj1 (saveLocation_then_searchLocations ascii_toLowerCase "loc-5" "SPRING"
                    (location_of_geocoded springfield_geocoded) sample_cache H)).
  reflexivity.
Defined.

Lemma find_first {A : Type} (p : A -> bool) (l : list A) (x : A) :
  find p l = Some x ->
  exists before after,
    l = before ++ x :: after
    /\ p x = true
    /\ forall y, In y before -> p y = false.
Proof.
  induction l as [| a rest IH]; simpl; [discriminate |].
  destruct (p a) eqn:Ea.
  - intro H. inversion H; subst. exists [], rest. repeat split; [assumption |].
    intros y [].
  - intro H. destruct (IH H) as [before [after [Heq [Hx Hbefore]]]].
    exists (a :: before), after. split; [simpl; now rewrite Heq |].
    split; [exact Hx |]. intros y [<- | Hy]; [exact Ea | now apply Hbefore].
Qed.

(** The test of the lookup fails against a coordinate that is not a finite
    number, whatever the other operand is. *)
Lemma near_binary64_not_finite (coordinate x : float) :
  x = PrimFloat.nan \/ x = PrimFloat.infinity \/ x = PrimFloat.neg_infinity ->
  near_binary64 coordinate x = false.
Proof.
  intro Hx. unfold near_binary64.
  rewrite ltb_spec, abs_spec, sub_spec.
  destruct Hx as [-> | [-> | ->]].
  - change (Prim2SF PrimFloat.nan) with S754_nan.
    destruct (Prim2SF coordinate); reflexivity.
  - change (Prim2SF PrimFloat.infinity) with (S754_infinity false).
    destruct (Prim2SF coordinate) as [s | [|] | | s m e]; reflexivity.
  - change (Prim2SF PrimFloat.neg_infinity) with (S754_infinity true).
    destruct (Prim2SF coordinate) as [s | [|] | | s m e]; reflexivity.
Qed.

(** Of several cached locations that pass the test the lookup returns the
    one cached first; and for a coordinate that is not a finite number
    ([NaN] or an infinity) it returns nothing, whatever the cache holds. *)
Theorem getLocationByCoords_returns_first (lat lon : float)
    (cache : Map Binary64.Location) :
  (forall found,
     Binary64.getLocationByCoords lat lon cache = Some found ->
     exists before after,
       Map_values cache = before ++ found :: after
       /\ passes_test lat lon found
       /\ forall loc, In loc before -> ~ passes_test lat lon loc)
  /\ (In lat [PrimFloat.nan; PrimFloat.infinity; PrimFloat.neg_infinity]
      \/ In lon [PrimFloat.nan; PrimFloat.infinity; PrimFloat.neg_infinity] ->
      Binary64.getLocationByCoords lat lon cache = None).
Proof.
  split.
  - intros found H. unfold Binary64.getLocationByCoords in H.
    destruct (find_first _ _ _ H) as [before [after [Heq [Hfound Hbefore]]]].
    exists before, after. split; [exact Heq |]. split.
    + apply andb_true_iff in Hfound. exact Hfound.
    + intros loc Hin [Hlat Hlon].
      pose proof (Hbefore loc Hin) as Hno. simpl in Hno.
      rewrite Hlat, Hlon in Hno. discriminate Hno.
  - intro Hnot. unfold Binary64.getLocationByCoords.
    destruct (find _ (Map_values cache)) as [found |] eqn:E; [| reflexivity].
    apply find_some in E. destruct E as [_ Hnear].
    apply andb_true_iff in Hnear. destruct Hnear as [H1 H2].
    destruct Hnot as [Hlat | Hlon].
    + rewrite near_binary64_not_finite in H1; [discriminate H1 |].
      simpl in Hlat. intuition auto.
    + rewrite near_binary64_not_finite in H2; [discriminate H2 |].
      simpl in Hlon. intuition auto.
Qed.

(** A finite coordinate passes the test against itself: the difference is
    zero. *)
Lemma near_binary64_self (x : float) (q : Q) :
  value x = Finite q -> near_binary64 x x = true.
Proof.
  unfold near_binary64, value. intro Hfin.
  rewrite ltb_spec, abs_spec, sub_spec.
  destruct (Prim2SF x) as [s | s | | s m e]; try discriminate Hfin.
  - destruct s; reflexivity.
  - unfold SF64sub, SFsub. rewrite Z.min_id. unfold shl_align.
    replace (IntDef.Z.sub e e) with 0%Z by (symmetry; apply Z.sub_diag).
    cbn [fst].
    replace (IntDef.Z.sub (cond_Zopp s (Z.pos m)) (cond_Zopp s (Z.pos m)))
      with 0%Z by (symmetry; apply Z.sub_diag).
    reflexivity.
Qed.

(** In the runtime's arithmetic too a cached location is found at its own
    coordinates when these are finite numbers: the lookup returns a cached
    location that passes the test, the first one.  A location whose
    latitude is [NaN] is not found at its own coordinates. *)
Theorem getLocationByCoords_own_coordinates (cache : Map Binary64.Location)
    (loc : Binary64.Location) (lat lon : Q) :
  In loc (Map_values cache) ->
  value (Binary64.latitude loc) = Finite lat ->
  value (Binary64.longitude loc) = Finite lon ->
  (exists found,
     Binary64.getLocationByCoords (Binary64.latitude loc) (Binary64.longitude loc)
       cache
     = Some found
     /\ In found (Map_values cache)
     /\ passes_test (Binary64.latitude loc) (Binary64.longitude loc) found)
  /\ (forall id name,
        Binary64.getLocationByCoords PrimFloat.nan (Binary64.longitude loc)
          (cache64_with_place id name PrimFloat.nan (Binary64.longitude loc))
        = None).
Proof.
  intros Hin Hlat Hlon. split.
  - unfold Binary64.getLocationByCoords.
    destruct (find _ (Map_values cache)) as [found |] eqn:E.
    + exists found. split; [reflexivity |].
      apply find_some in E. destruct E as [Hfound Hnear].
      apply andb_true_iff in Hnear. now split.
    + pose proof (find_none _ _ E loc Hin) as Hno. simpl in Hno.
      rewrite (near_binary64_self _ lat Hlat), (near_binary64_self _ lon Hlon) in Hno.
      discriminate Hno.
  - intros id name. unfold Binary64.getLocationByCoords.
    destruct (find _ _) as [found |] eqn:E; [| reflexivity].
    apply find_some in E. destruct E as [[<- | []] Hnear].
    apply andb_true_iff in Hnear. destruct Hnear as [H1 _]. simpl in H1.
    rewrite near_binary64_not_finite in H1 by now left.
    discriminate H1.
Qed.

(** A place cached at (40.7135, -74.0058) is found there. *)
Lemma getLocationByCoords_own_coordinates_witness :
  exists found,
    Binary64.getLocationByCoords 40.7135 (-74.0058)
      (cache64_with_place "loc-1" "New York" 40.7135 (-74.0058))
    = Some found
    /\ In found (Map_values (cache64_with_place "loc-1" "New York" 40.7135 (-74.0058)))
    /\ passes_test 40.7135 (-74.0058) found.
Proof.
  refine (proj1 (getLocationByCoords_own_coordinates
                   (cache64_with_place "loc-1" "New York" 40.7135 (-74.0058))
                   (place64 "loc-1" "New York" 40.7135 (-74.0058))
                   (5729915732154647 # 140737488355328)
                   (-2603847603931683 # 35184372088832) _ _ _)).
  - now left.
  - vm_compute. reflexivity.
  - vm_compute. reflexivity.
Defined.

Lemma erase_stamps_set (id : string) (w : WeatherData.t) (rows : Map WeatherData.t) :
  erase_stamps (Map_set id w rows)
  = Map_set id (WeatherData.data w) (erase_stamps rows).
Proof.
  induction rows as [| [k old] rest IH]; simpl; [reflexivity |].
  destruct (String.eqb_spec k id); simpl; [reflexivity | now rewrite IH].
Qed.

(** The stamped save and the save of the routes agree once the stamps are
    set aside. *)
Lemma saveWeatherData_at_erased (now : Z) (id : string) (data : Scored.t)
    (rows : Map WeatherData.t) (cache : Map Location.t) :
  weatherData
    (snd (saveWeatherData id data
            {| weatherData := erase_stamps rows; locations := cache |}))
  = erase_stamps (snd (saveWeatherData_at now id data rows)).
Proof. simpl. now rewrite erase_stamps_set. Qed.

(* ------------------------------------------------------------------ *)
(** ** The search route when the geocoder answers *)

Lemma fresh_ids_step (W : World) (drawn count : nat) (keys : list string) :
  fresh_ids W drawn (S count) keys ->
  ~ In (randomUUID W drawn) keys
  /\ fresh_ids W (S drawn) count (keys ++ [randomUUID W drawn]).
Proof.
  unfold fresh_ids. simpl. intro Hnd. split.
  - inversion Hnd as [| ? ? Hnotin _]. intro Hin. apply Hnotin.
    apply in_or_app. now right.
  - eapply Permutation_NoDup; [| exact Hnd].
    rewrite app_assoc. apply Permutation_cons_append.
Qed.

Lemma saveLocation_fresh (id : string) (location : InsertLocation.t)
    (st : MemStorage) :
  ~ In id (Map_keys (locations st)) ->
  Map_values (locations (snd (saveLocation id location st)))
  = Map_values (locations st) ++ [location_row id location]
  /\ Map_keys (locations (snd (saveLocation id location st)))
     = Map_keys (locations st) ++ [id]
  /\ weatherData (snd (saveLocation id location st)) = weatherData st.
Proof.
  intro Hfresh. simpl.
  rewrite Map_values_set_fresh, Map_keys_set_fresh by exact Hfresh. auto.
Qed.

Lemma save_locations_appends (W : World) (found : list InsertLocation.t) :
  forall drawn st,
    fresh_ids W drawn (List.length found) (Map_keys (locations st)) ->
    Map_values (locations (save_locations W drawn found st))
    = Map_values (locations st) ++ location_rows W drawn found
    /\ Map_keys (locations (save_locations W drawn found st))
       = Map_keys (locations st) ++ map (randomUUID W) (seq drawn (List.length found))
    /\ weatherData (save_locations W drawn found st) = weatherData st.
Proof.
  induction found as [| location rest IH]; intros drawn st Hfresh.
  - simpl. now rewrite !app_nil_r.
  - apply fresh_ids_step in Hfresh. destruct Hfresh as [Hnew Hrest].
    destruct (saveLocation_fresh (randomUUID W drawn) location st Hnew)
      as [Hvalues [Hkeys Hweather]].
    rewrite <- Hkeys in Hrest.
    destruct (IH (S drawn) _ Hrest) as [IHvalues [IHkeys IHweather]].
    cbn [save_locations location_rows List.length seq map].
    rewrite IHvalues, IHkeys, IHweather, Hvalues, Hkeys, Hweather.
    rewrite <- !app_assoc. auto.
Qed.

Lemma location_rows_In (W : World) (found : list InsertLocation.t)
    (location : InsertLocation.t) :
  In location found ->
  forall drawn, exists id, In (location_row id location) (location_rows W drawn found).
Proof.
  induction found as [| l rest IH]; intros Hin drawn; [destruct Hin |].
  destruct Hin as [-> | Hin].
  - exists (randomUUID W drawn). now left.
  - destruct (IH Hin (S drawn)) as [id Hid]. exists id. now right.
Qed.

Lemma location_rows_length (W : World) (found : list InsertLocation.t) :
  forall drawn, List.length (location_rows W drawn found) = List.length found.
Proof.
  induction found as [| l rest IH]; intro drawn; simpl; [reflexivity | now rewrite IH].
Qed.

Lemma resolve_values (W : World) (q : string) (data : list Geocoded.t)
    (st : MemStorage) :
  geocoding_direct W q = Normal data ->
  fresh_ids W 0 (List.length data) (Map_keys (locations st)) ->
  Map_values (locations (snd (resolve W q st)))
  = Map_values (locations st) ++ location_rows W 0 (map location_of_geocoded data)
  /\ weatherData (snd (resolve W q st)) = weatherData st.
Proof.
  intros Hgeo Hfresh. unfold resolve. rewrite Hgeo. simpl.
  rewrite <- (length_map location_of_geocoded) in Hfresh.
  destruct (save_locations_appends W _ 0 st Hfresh) as [Hvalues [_ Hweather]].
  now split.
Qed.

(** When the geocoder answers, the search returns its entries as they
    came, in order, and caches every one of them: with new identifiers the
    cache grows by one row per entry, after the rows it had, so a search
    repeated stores the same places again.  Saved weather is not touched. *)
Theorem resolve_caches_what_it_finds (W : World) (q : string)
    (data : list Geocoded.t) (st : MemStorage) :
  geocoding_direct W q = Normal data ->
  fresh_ids W 0 (List.length data) (Map_keys (locations st)) ->
  fst (resolve W q st) = Geocoded_locations (map location_of_geocoded data)
  /\ Map_values (locations (snd (resolve W q st)))
     = Map_values (locations st)
       ++ location_rows W 0 (map location_of_geocoded data)
  /\ List.length (Map_values (locations (snd (resolve W q st))))
     = (List.length (Map_values (locations st)) + List.length data)%nat
  /\ weatherData (snd (resolve W q st)) = weatherData st.
Proof.
  intros Hgeo Hfresh.
  destruct (resolve_values W q data st Hgeo Hfresh) as [Hvalues Hweather].
  split; [unfold resolve; now rewrite Hgeo |].
  split; [exact Hvalues |]. split; [| exact Hweather].
  rewrite Hvalues, length_app, location_rows_length, length_map. reflexivity.
Qed.

Lemma resolve_caches_what_it_finds_witness :
  geocoding_direct geocoder_up "springfield" = Normal [springfield_geocoded]
  /\ fresh_ids geocoder_up 0 1 (Map_keys (locations sample_cache))
  /\ List.length (Map_values (locations (snd (resolve geocoder_up "springfield"
                                                  sample_cache))))
     = 5%nat.
Proof.
  assert (Hfresh : fresh_ids geocoder_up 0 1 (Map_keys (locations sample_cache))).
  { unfold fresh_ids. simpl.
    repeat (constructor; [simpl; intuition discriminate |]). constructor. }
  split; [reflexivity |]. split; [exact Hfresh |].
  exact (proj1 (proj2 (proj2 (resolve_caches_what_it_finds geocoder_up "springfield"
                                [springfield_geocoded] sample_cache eq_refl Hfresh)))).
Defined.

(** What a search cached is there for the fallback: once a search has
    found an entry, a later search with the geocoder down returns a cached
    row with that entry's name and coordinates for every text whose
    lower-case form occurs in the lower-case form of the entry's name. *)
Theorem cached_search_serves_the_fallback (W later : World) (q q' : string)
    (data : list Geocoded.t) (entry : Geocoded.t) (st : MemStorage) :
  geocoding_direct W q = Normal data ->
  fresh_ids W 0 (List.length data) (Map_keys (locations st)) ->
  In entry data ->
  lowered_contains (lowerCase later) (Geocoded.name entry) q' ->
  geocoding_direct later q' = Throw ->
  exists rows loc,
    fst (resolve later q' (snd (resolve W q st))) = Cached_locations rows
    /\ In loc rows
    /\ Location.name loc = Geocoded.name entry
    /\ Location.latitude loc = Geocoded.lat entry
    /\ Location.longitude loc = Geocoded.lon entry.
Proof.
  intros Hgeo Hfresh Hentry Hcontains Hdown.
  destruct (resolve_values W q data st Hgeo Hfresh) as [Hvalues _].
  assert (Hloc : In (location_of_geocoded entry) (map location_of_geocoded data))
    by now apply in_map.
  destruct (location_rows_In W _ _ Hloc 0) as [id Hid].
  exists (searchLocations (lowerCase later) q' (snd (resolve W q st))),
         (location_row id (location_of_geocoded entry)).
  split; [unfold resolve at 1; now rewrite Hdown |].
  split; [| repeat split].
  apply searchLocations_In. split.
  - rewrite Hvalues. apply in_or_app. now right.
  - left. exact Hcontains.
Qed.

Lemma cached_search_serves_the_fallback_witness :
  exists rows loc,
    fst (resolve offline "FIELD" (snd (resolve geocoder_up "springfield" empty_storage)))
    = Cached_locations rows
    /\ In loc rows
    /\ Location.name loc = "Springfield"%string
    /\ Location.latitude loc = 39.7817
    /\ Location.longitude loc = (-89.6501).
Proof.
  apply (cached_search_serves_the_fallback geocoder_up offline "springfield" "FIELD"
           [springfield_geocoded] springfield_geocoded empty_storage eq_refl).
  - unfold fresh_ids. simpl. repeat constructor. simpl. tauto.
  - now left.
  - exists "spring"%string, ""%string. reflexivity.
  - reflexivity.
Defined.

(* ------------------------------------------------------------------ *)
(** ** The weather route: what it stores, answers and prefers *)

Lemma save_weather_appends (W : World) (records : list Scored.t) :
  forall drawn st,
    fresh_ids W drawn (List.length records) (Map_keys (weatherData st)) ->
    Map_values (weatherData (save_weather W drawn records st))
    = Map_values (weatherData st) ++ records
    /\ Map_keys (weatherData (save_weather W drawn records st))
       = Map_keys (weatherData st)
         ++ map (randomUUID W) (seq drawn (List.length records)).
Proof.
  induction records as [| r rest IH]; intros drawn st Hfresh.
  - simpl. now rewrite !app_nil_r.
  - apply fresh_ids_step in Hfresh. destruct Hfresh as [Hnew Hrest].
    cbn [save_weather List.length seq map].
    set (st1 := snd (saveWeatherData (randomUUID W drawn) r st)).
    assert (Hvalues : Map_values (weatherData st1) = Map_values (weatherData st) ++ [r])
      by (subst st1; simpl; now rewrite Map_values_set_fresh).
    assert (Hkeys : Map_keys (weatherData st1)
                    = Map_keys (weatherData st) ++ [randomUUID W drawn])
      by (subst st1; simpl; now rewrite Map_keys_set_fresh).
    rewrite <- Hkeys in Hrest.
    destruct (IH (S drawn) st1 Hrest) as [IHvalues IHkeys].
    rewrite IHvalues, IHkeys, Hvalues, Hkeys, <- !app_assoc. auto.
Qed.

(** The weather route stores what it answers with: with new identifiers the
    saved weather grows by exactly the scored records of the answer, in
    their order, after the rows it had (by nothing when every provider
    failed), and the location cache is not touched. *)
Theorem aggregate_stores_its_sources (W : World) (params : Params)
    (st : MemStorage) :
  fresh_ids W 0 (List.length (successfulResults W params))
            (Map_keys (weatherData st)) ->
  Map_values (weatherData (snd (aggregate W params st)))
  = Map_values (weatherData st) ++ map with_accuracy (successfulResults W params)
  /\ (forall body,
        fst (aggregate W params st) = json body ->
        Map_values (weatherData (snd (aggregate W params st)))
        = Map_values (weatherData st) ++ sources body)
  /\ (forall code message,
        fst (aggregate W params st) = status_json code message ->
        snd (aggregate W params st) = st)
  /\ locations (snd (aggregate W params st)) = locations st.
Proof.
  intro Hfresh.
  rewrite <- (length_map with_accuracy) in Hfresh.
  destruct (save_weather_appends W _ 0 st Hfresh) as [Hvalues _].
  destruct (aggregate_cases W params st)
    as [[Hnil Hagg] | [_ [best [_ [_ [_ Hagg]]]]]]; rewrite Hagg; simpl.
  - rewrite Hnil. simpl. rewrite app_nil_r.
    split; [reflexivity |]. split; [discriminate |]. split; reflexivity.
  - split; [exact Hvalues |]. split.
    + intros body Hbody. inversion Hbody. exact Hvalues.
    + split; [discriminate | apply save_weather_locations].
Qed.

Lemma aggregate_stores_its_sources_witness :
  fresh_ids seattle_world 0 (List.length (successfulResults seattle_world seattle))
            (Map_keys (weatherData empty_storage))
  /\ Map_values (weatherData (snd (aggregate seattle_world seattle empty_storage)))
     = map with_accuracy (successfulResults seattle_world seattle)
  /\ List.length (Map_values (weatherData (snd (aggregate seattle_world seattle
                                                  empty_storage)))) = 2%nat.
Proof.
  assert (Hfresh : fresh_ids seattle_world 0
                     (List.length (successfulResults seattle_world seattle))
                     (Map_keys (weatherData empty_storage))).
  { unfold fresh_ids. vm_compute.
    repeat (constructor; [simpl; intuition discriminate |]). constructor. }
  split; [exact Hfresh |].
  split; [| vm_compute; reflexivity].
  exact (proj1 (aggregate_stores_its_sources seattle_world seattle empty_storage Hfresh)).
Defined.

(** The answers of the weather route.  It refuses with 400, touching
    nothing, exactly when the location text and one of the coordinates are
    missing or empty.  Otherwise it aggregates for the coordinates converted
    from the query texts: a failure is then the 503 of all providers
    failing, never a 500, and every record of a body carries the converted
    coordinates. *)
Theorem weather_handler_answers (W : World) (lat lon location : QueryValue)
    (st : MemStorage) :
  ((falsy lat || falsy lon) && falsy location = true ->
   weather_handler W lat lon location st
   = (status_json 400 "Either lat/lon or location is required", st))
  /\ ((falsy lat || falsy lon) && falsy location = false ->
      weather_handler W lat lon location st
      = aggregate W (params_of_query W lat lon location) st)
  /\ (forall code message,
        fst (weather_handler W lat lon location st) = status_json code message ->
        (code = 400%nat /\ (falsy lat || falsy lon) && falsy location = true)
        \/ (code = 503%nat
            /\ (falsy lat || falsy lon) && falsy location = false
            /\ successfulResults W (params_of_query W lat lon location) = []))
  /\ (forall body scored,
        fst (weather_handler W lat lon location st) = json body ->
        In scored (sources body) ->
        Weather.latitude (Scored.weather scored) = Number_of W lat
        /\ Weather.longitude (Scored.weather scored) = Number_of W lon).
Proof.
  unfold weather_handler.
  destruct ((falsy lat || falsy lon) && falsy location) eqn:Hguard.
  - split; [reflexivity |]. split; [discriminate |]. split.
    + intros code message H. simpl in H. inversion H. now left.
    + intros body scored H. discriminate H.
  - split; [discriminate |]. split; [reflexivity |].
    destruct (aggregate_cases W (params_of_query W lat lon location) st)
      as [[Hnil Hagg] | [_ [best [_ [_ [_ Hagg]]]]]]; rewrite Hagg; simpl.
    + split.
      * intros code message H. inversion H. right. auto.
      * intros body scored H. discriminate H.
    + split; [intros code message H; discriminate H |].
      intros body scored H Hin. inversion H; subst body. cbn [sources] in Hin.
      apply in_map_iff in Hin. destruct Hin as [r [<- Hr]].
      apply successfulResults_In in Hr. destruct Hr as [source [_ Hfetch]].
      destruct (fetchWeatherFromSource_header W source _ r Hfetch)
        as [_ [_ [Hla Hlo]]].
      simpl. now rewrite Hla, Hlo.
Qed.

Lemma weather_handler_answers_witness :
  fst (weather_handler offline QAbsent (QText "-122.3321") (QText "") empty_storage)
  = status_json 400 "Either lat/lon or location is required"
  /\ exists body,
       fst (weather_handler seattle_world (QText "47.6062") (QText "-122.3321")
              QAbsent empty_storage) = json body
       /\ forall scored,
            In scored (sources body) ->
            Weather.latitude (Scored.weather scored) = Finite 47.6062
            /\ Weather.longitude (Scored.weather scored) = Finite (-122.3321).
Proof.
  split; [reflexivity |].
  eexists. split; [vm_compute; reflexivity |].
  intros scored Hin.
  apply (proj2 (proj2 (proj2 (weather_handler_answers seattle_world (QText "47.6062")
                                 (QText "-122.3321") QAbsent empty_storage)))
           _ scored eq_refl).
  exact Hin.
Defined.

Lemma successfulResults_by_source (W : World) (params : Params) :
  successfulResults W params
  = match fetchWeatherFromSource W "openweathermap" params with
    | Some r => [r]
    | None => []
    end
    ++ match fetchWeatherFromSource W "weatherapi" params with
       | Some r => [r]
       | None => []
       end
    ++ match fetchWeatherFromSource W "accuweather" params with
       | Some r => [r]
       | None => []
       end.
Proof.
  unfold successfulResults, weatherResults, weatherSources, fulfilled_values,
    filter_Boolean. simpl. now rewrite !app_nil_r.
Qed.

(** The records of an answer are one per provider that returned a record,
    in the fixed order openweathermap, weatherapi, accuweather: at most
    three, no provider twice. *)
Theorem sources_one_per_provider (W : World) (params : Params) (st : MemStorage)
    (body : Aggregate) :
  fst (aggregate W params st) = json body ->
  map (fun scored => Weather.source (Scored.weather scored)) (sources body)
  = filter (succeeded W params) weatherSources
  /\ (List.length (sources body) <= 3)%nat
  /\ NoDup (map (fun scored => Weather.source (Scored.weather scored)) (sources body)).
Proof.
  intro Hbody.
  assert (Hsources : sources body = map with_accuracy (successfulResults W params)).
  { destruct (aggregate_cases W params st)
      as [[_ Hagg] | [_ [best [_ [_ [_ Hagg]]]]]]; rewrite Hagg in Hbody;
      simpl in Hbody; [discriminate | now inversion Hbody]. }
  assert (Hnames : map (fun scored => Weather.source (Scored.weather scored))
                       (sources body)
                   = filter (succeeded W params) weatherSources).
  { rewrite Hsources, successfulResults_by_source. unfold weatherSources, succeeded.
    simpl.
    destruct (fetchWeatherFromSource W "openweathermap" params) as [r1 |] eqn:E1;
      destruct (fetchWeatherFromSource W "weatherapi" params) as [r2 |] eqn:E2;
      destruct (fetchWeatherFromSource W "accuweather" params) as [r3 |] eqn:E3;
      simpl;
      repeat match goal with
             | E : fetchWeatherFromSource W _ params = Some ?r |- _ =>
                 destruct (fetchWeatherFromSource_header W _ params r E)
                   as [_ [-> _]]; clear E
             end;
      reflexivity. }
  split; [exact Hnames |]. split.
  - rewrite <- (length_map (fun scored => Weather.source (Scored.weather scored))), Hnames.
    apply (filter_length_le (succeeded W params) weatherSources).
  - rewrite Hnames. apply NoDup_filter. unfold weatherSources.
    repeat (constructor; [simpl; intuition discriminate |]). constructor.
Qed.

Lemma sources_one_per_provider_witness :
  exists body,
    fst (aggregate seattle_world seattle empty_storage) = json body
    /\ map (fun scored => Weather.source (Scored.weather scored)) (sources body)
       = ["openweathermap"; "weatherapi"]%string.
Proof.
  destruct (fst (aggregate seattle_world seattle empty_storage))
    as [body | code message] eqn:E.
  - exists body. split; [reflexivity |].
    rewrite (proj1 (sources_one_per_provider seattle_world seattle empty_storage body E)).
    vm_compute. reflexivity.
  - exfalso. vm_compute in E. discriminate E.
Defined.

Lemma with_accuracy_by_source (r : Weather.t) :
  (Weather.source r = "openweathermap"%string ->
   Scored.accuracy (with_accuracy r) = JNumber 0.94)
  /\ (Weather.source r = "weatherapi"%string ->
      Scored.accuracy (with_accuracy r) = JNumber 0.87)
  /\ (Weather.source r = "accuweather"%string ->
      Scored.accuracy (with_accuracy r) = JNumber 0.89).
Proof. repeat split; intro H; simpl; rewrite H; reflexivity. Qed.

Lemma more_accurate_numbers (prev current : Scored.t) (p c : Q) :
  Scored.accuracy prev = JNumber p ->
  Scored.accuracy current = JNumber c ->
  more_accurate prev current = if Qltb p c then current else prev.
Proof. intros Hp Hc. unfold more_accurate. now rewrite Hp, Hc. Qed.

(** With the accuracy table as it is, the selection is a fixed preference
    among providers: the OpenWeatherMap record whenever that provider
    answered, else the AccuWeather record, and the WeatherAPI record only
    when it is the only one. *)
Theorem mostAccurate_by_provider_preference (W : World) (params : Params)
    (st : MemStorage) (body : Aggregate) :
  fst (aggregate W params st) = json body ->
  (forall r,
     fetchWeatherFromSource W "openweathermap" params = Some r ->
     mostAccurate body = with_accuracy r)
  /\ (forall r,
        fetchWeatherFromSource W "openweathermap" params = None ->
        fetchWeatherFromSource W "accuweather" params = Some r ->
        mostAccurate body = with_accuracy r)
  /\ (forall r,
        fetchWeatherFromSource W "openweathermap" params = None ->
        fetchWeatherFromSource W "accuweather" params = None ->
        fetchWeatherFromSource W "weatherapi" params = Some r ->
        mostAccurate body = with_accuracy r)
  /\ aggregated body = mostAccurate body.
Proof.
  intro Hbody.
  destruct (aggregate_cases W params st)
    as [[_ Hagg] | [_ [best [Hsel [_ [_ Hagg]]]]]]; rewrite Hagg in Hbody;
    simpl in Hbody; [discriminate |].
  inversion Hbody; subst body; clear Hbody. cbn [mostAccurate aggregated].
  rewrite successfulResults_by_source in Hsel.
  destruct (fetchWeatherFromSource W "openweathermap" params) as [r1 |] eqn:E1;
    destruct (fetchWeatherFromSource W "weatherapi" params) as [r2 |] eqn:E2;
    destruct (fetchWeatherFromSource W "accuweather" params) as [r3 |] eqn:E3;
    repeat match goal with
           | E : fetchWeatherFromSource W _ params = Some ?r |- _ =>
               let Hs := fresh "Hs" in
               destruct (fetchWeatherFromSource_header W _ params r E)
                 as [_ [Hs _]]; clear E
           end;
    repeat match goal with
           | Hs : Weather.source ?r = "openweathermap"%string |- _ =>
               apply (proj1 (with_accuracy_by_source r)) in Hs
           | Hs : Weather.source ?r = "weatherapi"%string |- _ =>
               apply (proj1 (proj2 (with_accuracy_by_source r))) in Hs
           | Hs : Weather.source ?r = "accuweather"%string |- _ =>
               apply (proj2 (proj2 (with_accuracy_by_source r))) in Hs
           end;
    cbn [app map select_mostAccurate reduce fold_left] in Hsel;
    repeat match type of Hsel with
           | context [more_accurate ?a ?b] =>
               erewrite (more_accurate_numbers a b) in Hsel by eassumption;
               match type of Hsel with
               | context [Qltb ?x ?y] =>
                   let v := eval vm_compute in (Qltb x y) in
                   change (Qltb x y) with v in Hsel
               end;
               cbv iota in Hsel
           end;
    try discriminate Hsel;
    inversion Hsel; subst best;
    (split; [| split; [| split; [| reflexivity]]]);
    intros; congruence.
Qed.

Lemma mostAccurate_by_provider_preference_witness :
  exists body r,
    fst (aggregate seattle_world seattle empty_storage) = json body
    /\ fetchWeatherFromSource seattle_world "openweathermap" seattle = Some r
    /\ mostAccurate body = with_accuracy r.
Proof.
  destruct (fst (aggregate seattle_world seattle empty_storage))
    as [body | code message] eqn:E;
    [| exfalso; vm_compute in E; discriminate E].
  destruct (fetchWeatherFromSource seattle_world "openweathermap" seattle)
    as [r |] eqn:Er; [| exfalso; vm_compute in Er; discriminate Er].
  exists body, r. split; [reflexivity |]. split; [reflexivity |].
  exact (proj1 (mostAccurate_by_provider_preference seattle_world seattle
                  empty_storage body E) r Er).
Defined.

(* ------------------------------------------------------------------ *)
(** ** The dispatch to the adapters *)

(** [fetchWeatherFromSource] returns a record exactly when the source is one
    of the three names and that source's adapter completes with the record;
    any other name gives [null] without a request being made, and the
    location text of the parameters plays no part. *)
Theorem fetchWeatherFromSource_dispatch (W : World) (source : string)
    (params : Params) :
  (forall r,
     fetchWeatherFromSource W source params = Some r
     <-> (source = "openweathermap"%string
          /\ fetchOpenWeatherMap W (lat params) (lon params) = Normal r)
         \/ (source = "weatherapi"%string
             /\ fetchWeatherAPI W (lat params) (lon params) = Normal r)
         \/ (source = "accuweather"%string
             /\ fetchAccuWeather W (lat params) (lon params) = Normal r))
  /\ (~ In source weatherSources ->
      forall other : World, fetchWeatherFromSource other source params = None)
  /\ (forall text,
        fetchWeatherFromSource W source
          {| lat := lat params; lon := lon params; location := text |}
        = fetchWeatherFromSource W source params).
Proof.
  split; [| split].
  - intro r. unfold fetchWeatherFromSource.
    destruct (String.eqb_spec source "openweathermap") as [-> | H1].
    { destruct (fetchOpenWeatherMap W (lat params) (lon params)) as [x |].
      - split; [intro H; inversion H; auto |].
        intros [[_ H] | [[H _] | [H _]]]; try discriminate H. now inversion H.
      - split; [discriminate |].
        intros [[_ H] | [[H _] | [H _]]]; discriminate H. }
    destruct (String.eqb_spec source "weatherapi") as [-> | H2].
    { destruct (fetchWeatherAPI W (lat params) (lon params)) as [x |].
      - split; [intro H; inversion H; auto |].
        intros [[H _] | [[_ H] | [H _]]]; try discriminate H. now inversion H.
      - split; [discriminate |].
        intros [[H _] | [[_ H] | [H _]]]; discriminate H. }
    destruct (String.eqb_spec source "accuweather") as [-> | H3].
    { destruct (fetchAccuWeather W (lat params) (lon params)) as [x |].
      - split; [intro H; inversion H; auto |].
        intros [[H _] | [[H _] | [_ H]]]; try discriminate H. now inversion H.
      - split; [discriminate |].
        intros [[H _] | [[H _] | [_ H]]]; discriminate H. }
    split; [discriminate | intros [[H _] | [[H _] | [H _]]]; contradiction].
  - intros Hunknown other. unfold fetchWeatherFromSource.
    unfold weatherSources in Hunknown. simpl in Hunknown.
    destruct (String.eqb_spec source "openweathermap"); [intuition congruence |].
    destruct (String.eqb_spec source "weatherapi"); [intuition congruence |].
    destruct (String.eqb_spec source "accuweather"); [intuition congruence |].
    reflexivity.
  - intro text. reflexivity.
Qed.

(* ------------------------------------------------------------------ *)
(** ** When an adapter completes *)

Lemma first_completes {A : Type} (array : list A) :
  (exists x, first array = Normal x) <-> array <> [].
Proof.
  destruct array as [| x rest]; simpl.
  - split; [intros [x H]; discriminate H | congruence].
  - split; [discriminate | intros _; now exists x].
Qed.

Lemma map_indexed_completes {A B : Type} (callback : A -> nat -> Completion B)
    (P : A -> Prop) :
  (forall item index, (exists y, callback item index = Normal y) <-> P item) ->
  forall array index,
    (exists out, map_indexed callback index array = Normal out) <-> Forall P array.
Proof.
  intros Hcallback. induction array as [| item rest IH]; intro index; simpl.
  - split; [constructor | intros _; now exists []].
  - split.
    + intros [out H]. unbind H. constructor.
      * apply (Hcallback item index). eexists. eassumption.
      * apply (IH (S index)). eexists. eassumption.
    + intro Hall. inversion Hall as [| ? ? Hitem Hrest]; subst.
      apply (Hcallback item index) in Hitem. destruct Hitem as [y Hy].
      apply (IH (S index)) in Hrest. destruct Hrest as [ys Hys].
      exists (y :: ys). now rewrite Hy, Hys.
Qed.

Lemma owm_hourly_completes (W : World) (item : Owm.item) (index : nat) :
  (exists h, owm_hourly W item index = Normal h) <-> has_conditions item.
Proof.
  unfold owm_hourly, has_conditions. rewrite <- first_completes.
  destruct (first (Owm.item_weather item)) as [w |]; simpl.
  - split; intros _; eexists; reflexivity.
  - split; intros [x H]; discriminate H.
Qed.

Lemma owm_daily_completes (W : World) (item : Owm.item) (index : nat) :
  (exists d, owm_daily W item index = Normal d) <-> has_conditions item.
Proof.
  unfold owm_daily, has_conditions. rewrite <- first_completes.
  destruct (first (Owm.item_weather item)) as [w |]; simpl.
  - split; intros _; eexists; reflexivity.
  - split; intros [x H]; discriminate H.
Qed.

(** The OpenWeatherMap adapter returns a record exactly when both requests
    succeed, the current reply names its conditions, and so does every
    forecast entry it reads: the first 24 and, of every eighth one, the
    first 10.  Entries it does not read cannot make it fail. *)
Theorem fetchOpenWeatherMap_completes_iff (W : World) (lat lon : number) :
  (exists r, fetchOpenWeatherMap W lat lon = Normal r)
  <-> exists current forecast,
        owm_weather W lat lon = Normal current
        /\ owm_forecast W lat lon = Normal forecast
        /\ Owm.weather current <> []
        /\ Forall has_conditions (slice0 24 (Owm.list forecast))
        /\ Forall has_conditions
             (slice0 10 (filter_indexed (fun index => (index mod 8 =? 0)%nat) 0
                                        (Owm.list forecast))).
Proof.
  unfold fetchOpenWeatherMap, OpenWeatherMap_record. split.
  - intros [r H]. unbind H.
    match goal with
    | Hc : owm_weather W lat lon = Normal ?c, Hf : owm_forecast W lat lon = Normal ?f
      |- _ => exists c, f
    end.
    split; [reflexivity |]. split; [reflexivity |]. split; [| split].
    + apply first_completes. eexists. eassumption.
    + apply (map_indexed_completes (owm_hourly W) has_conditions
               (owm_hourly_completes W) _ 0%nat).
      eexists. eassumption.
    + apply (map_indexed_completes (owm_daily W) has_conditions
               (owm_daily_completes W) _ 0%nat).
      eexists. eassumption.
  - intros [current [forecast [Hc [Hf [Hw [Hh Hd]]]]]]. rewrite Hc, Hf. cbn [bind].
    apply first_completes in Hw. destruct Hw as [w Hw].
    apply (map_indexed_completes (owm_hourly W) has_conditions
             (owm_hourly_completes W) _ 0%nat) in Hh. destruct Hh as [hs Hh].
    apply (map_indexed_completes (owm_daily W) has_conditions
             (owm_daily_completes W) _ 0%nat) in Hd. destruct Hd as [ds Hd].
    rewrite Hw. cbn [bind]. rewrite Hh. cbn [bind]. rewrite Hd. cbn [bind].
    eexists. reflexivity.
Qed.

Lemma map_indexed_total {A B : Type} (callback : A -> nat -> Completion B) :
  (forall item index, exists y, callback item index = Normal y) ->
  forall array index, exists out, map_indexed callback index array = Normal out.
Proof.
  intros Htotal array index.
  apply (map_indexed_completes callback (fun _ => True)).
  - intros item i. split; [auto | intros _; apply Htotal].
  - apply Forall_forall. auto.
Qed.

(** The WeatherAPI adapter returns a record exactly when its request
    succeeds with at least one forecast day, and the AccuWeather adapter
    exactly when its three requests succeed (the two later ones for the key
    the first one returned) with at least one entry of current conditions;
    an empty list of daily forecasts is accepted. *)
Theorem fetchWeatherAPI_fetchAccuWeather_complete_iff (W : World)
    (lat lon : number) :
  ((exists r, fetchWeatherAPI W lat lon = Normal r)
   <-> exists data,
         weatherapi_forecast W lat lon = Normal data
         /\ WeatherApi.forecast_forecastday data <> [])
  /\ ((exists r, fetchAccuWeather W lat lon = Normal r)
      <-> exists position currentRes forecast,
            accu_geoposition W lat lon = Normal position
            /\ accu_currentconditions W (Accu.Key position) = Normal currentRes
            /\ accu_daily10day W (Accu.Key position) = Normal forecast
            /\ currentRes <> []).
Proof.
  split.
  - unfold fetchWeatherAPI, WeatherAPI_record. split.
    + intros [r H]. unbind H.
      match goal with
      | Hd : weatherapi_forecast W lat lon = Normal ?d |- _ => exists d
      end.
      split; [reflexivity |]. apply first_completes. eexists. eassumption.
    + intros [data [Hdata Hdays]]. rewrite Hdata. cbn [bind].
      apply first_completes in Hdays. destruct Hdays as [today Htoday].
      rewrite Htoday. cbn [bind].
      destruct (map_indexed_total (weatherapi_hourly W)
                  (fun item index => ex_intro _ _ eq_refl)
                  (slice0 24 (WeatherApi.hour today)) 0%nat) as [hs Hh].
      destruct (map_indexed_total (weatherapi_daily W)
                  (fun item index => ex_intro _ _ eq_refl)
                  (WeatherApi.forecast_forecastday data) 0%nat) as [ds Hd].
      rewrite Hh. cbn [bind]. rewrite Hd. cbn [bind]. eexists. reflexivity.
  - unfold fetchAccuWeather, AccuWeather_record. split.
    + intros [r H]. unbind H.
      match goal with
      | Hp : accu_geoposition W lat lon = Normal ?p,
        Hc : accu_currentconditions W _ = Normal ?c,
        Hf : accu_daily10day W _ = Normal ?f |- _ => exists p, c, f
      end.
      split; [reflexivity |]. split; [assumption |]. split; [assumption |].
      apply first_completes. eexists. eassumption.
    + intros [position [currentRes [forecast [Hp [Hc [Hf Hne]]]]]].
      rewrite Hp. cbn [bind]. rewrite Hc. cbn [bind]. rewrite Hf. cbn [bind].
      apply first_completes in Hne. destruct Hne as [current Hcurrent].
      rewrite Hcurrent. cbn [bind].
      destruct (map_indexed_total (accu_daily W)
                  (fun item index => ex_intro _ _ eq_refl)
                  (Accu.DailyForecasts forecast) 0%nat) as [ds Hd].
      rewrite Hd. cbn [bind]. eexists. reflexivity.
Qed.

(* ------------------------------------------------------------------ *)
(** ** Which entries the forecasts are made of *)

Lemma map_indexed_nth {A B : Type} (callback : A -> nat -> Completion B)
    (array : list A) :
  forall index out j y,
    map_indexed callback index array = Normal out ->
    nth_error out j = Some y ->
    exists item, nth_error array j = Some item
                 /\ callback item (index + j)%nat = Normal y.
Proof.
  induction array as [| item rest IH]; intros index out j y H Hj; simpl in H.
  - inversion H; subst. destruct j; discriminate Hj.
  - unbind H. inversion H; subst. destruct j as [| j]; simpl in Hj.
    + inversion Hj; subst. exists item. split; [reflexivity |].
      now rewrite Nat.add_0_r.
    + match goal with
      | E : map_indexed callback (S index) rest = Normal _ |- _ =>
          destruct (IH (S index) _ j y E Hj) as [x [Hx Hcall]]
      end.
      exists x. split; [exact Hx |]. now rewrite Nat.add_succ_r.
Qed.

Lemma slice0_nth {A : Type} (n j : nat) (array : list A) (x : A) :
  nth_error (slice0 n array) j = Some x ->
  nth_error array j = Some x /\ (j < n)%nat.
Proof.
  unfold slice0. revert n j. induction array as [| a rest IH]; intros n j H.
  - rewrite firstn_nil in H. destruct j; discriminate H.
  - destruct n as [| n]; [destruct j; discriminate H |].
    destruct j as [| j]; simpl in H |- *.
    + split; [exact H | lia].
    + destruct (IH n j H) as [Hx Hlt]. split; [exact Hx | lia].
Qed.

(** The entries kept by the every-eighth filter, counted from position
    [start]: the [j]-th kept one is [8 * j] places after the first kept. *)
Lemma filter_indexed_eighth_nth {A : Type} (array : list A) :
  forall start j,
    nth_error (filter_indexed (fun index => (index mod 8 =? 0)%nat) start array) j
    = nth_error array ((8 - start mod 8) mod 8 + 8 * j).
Proof.
  induction array as [| a rest IH]; intros start j.
  - cbn [filter_indexed]. now rewrite !nth_error_nil.
  - cbn [filter_indexed].
    pose proof (Nat.mod_upper_bound start 8 ltac:(discriminate)) as Hlt.
    pose proof (Nat.div_mod_eq start 8) as Hs.
    pose proof (Nat.div_mod_eq (S start) 8) as HS.
    pose proof (Nat.mod_upper_bound (S start) 8 ltac:(discriminate)) as HltS.
    destruct (Nat.eqb_spec (start mod 8) 0) as [Hz | Hnz].
    + assert (HSmod : (S start mod 8 = 1)%nat) by lia.
      rewrite Hz. change ((8 - 0) mod 8)%nat with 0%nat.
      destruct j as [| j]; simpl.
      * reflexivity.
      * rewrite IH, HSmod. change ((8 - 1) mod 8)%nat with 7%nat.
        replace (7 + 8 * j)%nat with (j + S (j + S (j + S (j + S (j + S (j + S (j + S (j + 0))))))))%nat by lia.
        reflexivity.
    + assert (HSmod : (S start mod 8 = S (start mod 8) \/ S start mod 8 = 0)%nat) by lia.
      rewrite IH.
      assert (Hoff : ((8 - start mod 8) mod 8 = S ((8 - S start mod 8) mod 8))%nat).
      { rewrite (Nat.mod_small (8 - start mod 8) 8) by lia.
        destruct HSmod as [Hnext | Hwrap].
        - rewrite Hnext, (Nat.mod_small (8 - S (start mod 8)) 8) by lia. lia.
        - assert (start mod 8 = 7)%nat by lia.
          rewrite Hwrap. change ((8 - 0) mod 8)%nat with 0%nat. lia. }
      rewrite Hoff. reflexivity.
Qed.

Lemma filter_indexed_eighth_length {A : Type} (array : list A) :
  forall start,
    (List.length (filter_indexed (fun index => (index mod 8 =? 0)%nat) start array)
     + (start + 7) / 8
     = (start + List.length array + 7) / 8)%nat.
Proof.
  induction array as [| a rest IH]; intro start; cbn [filter_indexed List.length].
  - now rewrite Nat.add_0_r.
  - pose proof (IH (S start)) as IHS.
    pose proof (Nat.div_mod_eq start 8) as Hs.
    pose proof (Nat.mod_upper_bound start 8 ltac:(discriminate)) as Hlt.
    pose proof (Nat.div_mod_eq (start + 7) 8) as H7.
    pose proof (Nat.mod_upper_bound (start + 7) 8 ltac:(discriminate)) as Hlt7.
    pose proof (Nat.div_mod_eq (S start + 7) 8) as H8.
    pose proof (Nat.mod_upper_bound (S start + 7) 8 ltac:(discriminate)) as Hlt8.
    replace (start + S (List.length rest) + 7)%nat
      with (S start + List.length rest + 7)%nat by lia.
    destruct (Nat.eqb_spec (start mod 8) 0) as [Hz | Hnz];
      cbn [List.length]; lia.
Qed.

(** What the OpenWeatherMap forecasts are made of.  The hourly points are
    the first 24 entries of the forecast list, one for one; the daily points
    are built from every eighth entry alone (entry [8 * j] gives point [j]),
    at most ten of them.  So a list of [n] entries gives [min 24 n] hourly
    and [min 10 (ceil (n / 8))] daily points. *)
Theorem OpenWeatherMap_forecast_entries (W : World) (lat lon : number)
    (current : Owm.current) (forecast : Owm.forecast) (r : Weather.t) :
  OpenWeatherMap_record W lat lon current forecast = Normal r ->
  List.length (Weather.hourlyForecast r)
  = Nat.min 24 (List.length (Owm.list forecast))
  /\ List.length (Weather.dailyForecast r)
     = Nat.min 10 ((List.length (Owm.list forecast) + 7) / 8)
  /\ (forall j h,
        nth_error (Weather.hourlyForecast r) j = Some h ->
        exists item,
          nth_error (Owm.list forecast) j = Some item
          /\ owm_hourly W item j = Normal h)
  /\ (forall j d,
        nth_error (Weather.dailyForecast r) j = Some d ->
        exists item,
          nth_error (Owm.list forecast) (8 * j) = Some item
          /\ owm_daily W item j = Normal d).
Proof.
  unfold OpenWeatherMap_record. intro H. unbind H. inversion H; subst r.
  cbn [Weather.hourlyForecast Weather.dailyForecast].
  match goal with
  | Hh : map_indexed (owm_hourly W) 0 _ = Normal ?hs,
    Hd : map_indexed (owm_daily W) 0 _ = Normal ?ds |- _ =>
      pose proof (map_indexed_length _ _ _ _ Hh) as Hhlen;
      pose proof (map_indexed_length _ _ _ _ Hd) as Hdlen;
      pose proof (fun j h => map_indexed_nth _ _ 0%nat hs j h Hh) as Hhnth;
      pose proof (fun j d => map_indexed_nth _ _ 0%nat ds j d Hd) as Hdnth
  end.
  split; [| split; [| split]].
  - rewrite Hhlen. unfold slice0. apply length_firstn.
  - rewrite Hdlen. unfold slice0. rewrite length_firstn. f_equal.
    pose proof (filter_indexed_eighth_length (Owm.list forecast) 0) as Hlen.
    change ((0 + 7) / 8)%nat with 0%nat in Hlen.
    rewrite Nat.add_0_r in Hlen. exact Hlen.
  - intros j h Hj. destruct (Hhnth j h Hj) as [item [Hitem Hcall]].
    apply slice0_nth in Hitem. destruct Hitem as [Hitem _].
    exists item. split; [exact Hitem | exact Hcall].
  - intros j d Hj. destruct (Hdnth j d Hj) as [item [Hitem Hcall]].
    apply slice0_nth in Hitem. destruct Hitem as [Hitem _].
    rewrite filter_indexed_eighth_nth in Hitem.
    exists item. split; [exact Hitem | exact Hcall].
Qed.

(** Forty three-hourly entries give 24 hourly and 5 daily points. *)
Lemma OpenWeatherMap_forecast_entries_witness :
  exists r,
    OpenWeatherMap_record offline (lat seattle) (lon seattle)
      seattle_owm_current seattle_owm_forecast = Normal r
    /\ List.length (Weather.hourlyForecast r) = 24%nat
    /\ List.length (Weather.dailyForecast r) = 5%nat.
Proof.
  destruct (OpenWeatherMap_record offline (lat seattle) (lon seattle)
              seattle_owm_current seattle_owm_forecast) as [r |] eqn:E;
    [| exfalso; vm_compute in E; discriminate E].
  exists r. split; [reflexivity |].
  destruct (OpenWeatherMap_forecast_entries offline (lat seattle) (lon seattle)
              seattle_owm_current seattle_owm_forecast r E) as [Hh [Hd _]].
  split; [rewrite Hh | rewrite Hd]; reflexivity.
Defined.

(** The first daily point of every adapter is labelled "Today", whatever
    date the provider's first entry carries; each later point is labelled
    with the weekday of the entry it is built from. *)
Theorem first_daily_point_is_Today (W : World) (lat lon : number) :
  (forall current forecast r j d,
     OpenWeatherMap_record W lat lon current forecast = Normal r ->
     nth_error (Weather.dailyForecast r) j = Some d ->
     match j with
     | O => Daily.day d = "Today"%string
     | S _ =>
         exists item,
           nth_error (Owm.list forecast) (8 * j) = Some item
           /\ Daily.day d
              = toLocaleDateString W (DateOfNumber (PrimFloat.mul (Owm.dt item) 1000))
     end)
  /\ (forall data r j d,
        WeatherAPI_record W lat lon data = Normal r ->
        nth_error (Weather.dailyForecast r) j = Some d ->
        match j with
        | O => Daily.day d = "Today"%string
        | S _ =>
            exists day,
              nth_error (WeatherApi.forecast_forecastday data) j = Some day
              /\ Daily.day d
                 = toLocaleDateString W (DateOfText (WeatherApi.date day))
        end)
  /\ (forall position currentRes forecast r j d,
        AccuWeather_record W lat lon position currentRes forecast = Normal r ->
        nth_error (Weather.dailyForecast r) j = Some d ->
        match j with
        | O => Daily.day d = "Today"%string
        | S _ =>
            exists day,
              nth_error (Accu.DailyForecasts forecast) j = Some day
              /\ Daily.day d = toLocaleDateString W (DateOfText (Accu.Date day))
        end).
Proof.
  split; [| split].
  - intros current forecast r j d H Hj.
    unfold OpenWeatherMap_record in H. unbind H. inversion H; subst r.
    cbn [Weather.dailyForecast] in Hj.
    match goal with
    | Hd : map_indexed (owm_daily W) 0 _ = Normal _ |- _ =>
        destruct (map_indexed_nth _ _ _ _ j d Hd Hj) as [item [Hitem Hcall]]
    end.
    apply slice0_nth in Hitem. destruct Hitem as [Hitem _].
    rewrite filter_indexed_eighth_nth in Hitem.
    unfold owm_daily in Hcall. unbind Hcall. inversion Hcall; subst d.
    destruct j as [| j]; [reflexivity |].
    exists item. split; [exact Hitem | reflexivity].
  - intros data r j d H Hj.
    unfold WeatherAPI_record in H. unbind H. inversion H; subst r.
    cbn [Weather.dailyForecast] in Hj.
    match goal with
    | Hd : map_indexed (weatherapi_daily W) 0 _ = Normal _ |- _ =>
        destruct (map_indexed_nth _ _ _ _ j d Hd Hj) as [day [Hday Hcall]]
    end.
    inversion Hcall; subst d.
    destruct j as [| j]; [reflexivity |].
    exists day. split; [exact Hday | reflexivity].
  - intros position currentRes forecast r j d H Hj.
    unfold AccuWeather_record in H. unbind H. inversion H; subst r.
    cbn [Weather.dailyForecast] in Hj.
    match goal with
    | Hd : map_indexed (accu_daily W) 0 _ = Normal _ |- _ =>
        destruct (map_indexed_nth _ _ _ _ j d Hd Hj) as [day [Hday Hcall]]
    end.
    inversion Hcall; subst d.
    destruct j as [| j]; [reflexivity |].
    exists day. split; [exact Hday | reflexivity].
Qed.

(* ------------------------------------------------------------------ *)
(** ** Saved weather, newest first *)

Lemma insert_sorted_perm {A : Type} (compare : A -> A -> Z) (x : A) (l : list A) :
  Permutation (insert_sorted compare x l) (x :: l).
Proof.
  induction l as [| y rest IH]; simpl; [apply Permutation_refl |].
  destruct (compare x y <=? 0)%Z; [apply Permutation_refl |].
  eapply Permutation_trans; [apply perm_skip, IH | apply perm_swap].
Qed.

Lemma Array_sort_perm {A : Type} (compare : A -> A -> Z) (l : list A) :
  Permutation (Array_sort compare l) l.
Proof.
  induction l as [| x rest IH]; simpl; [constructor |].
  eapply Permutation_trans; [apply insert_sorted_perm | now apply perm_skip].
Qed.

Lemma not_older_trans (a b c : WeatherData.t) :
  not_older a b -> not_older b c -> not_older a c.
Proof. unfold not_older. lia. Qed.

Lemma insert_newest_first_sorted (x : WeatherData.t) (l : list WeatherData.t) :
  StronglySorted not_older l ->
  StronglySorted not_older (insert_sorted newest_first x l).
Proof.
  induction l as [| y rest IH]; intro Hsorted; simpl.
  - repeat constructor.
  - inversion Hsorted as [| ? ? Hrest Hall]; subst.
    destruct (Z.leb_spec (newest_first x y) 0) as [Hle | Hgt].
    + constructor; [exact Hsorted |]. constructor.
      * unfold newest_first in Hle. unfold not_older. lia.
      * eapply Forall_impl; [| exact Hall]. intros z Hz.
        apply (not_older_trans x y z); [| exact Hz].
        unfold newest_first in Hle. unfold not_older. lia.
    + constructor; [now apply IH |].
      eapply Permutation_Forall; [apply Permutation_sym, insert_sorted_perm |].
      constructor; [| exact Hall].
      unfold newest_first in Hgt. unfold not_older. lia.
Qed.

Lemma Array_sort_newest_first_sorted (l : list WeatherData.t) :
  StronglySorted not_older (Array_sort newest_first l).
Proof.
  induction l as [| x rest IH]; simpl; [constructor |].
  now apply insert_newest_first_sorted.
Qed.

(** Rows of one stamp keep the order they had. *)
Lemma Array_sort_newest_first_stable (stamp : Z) (l : list WeatherData.t) :
  filter (fun w => (fetchedAt_time w =? stamp)%Z) (Array_sort newest_first l)
  = filter (fun w => (fetchedAt_time w =? stamp)%Z) l.
Proof.
  induction l as [| x rest IH]; [reflexivity |].
  change (Array_sort newest_first (x :: rest))
    with (insert_sorted newest_first x (Array_sort newest_first rest)).
  cbn [filter]. rewrite <- IH. clear IH.
  induction (Array_sort newest_first rest) as [| y sorted IHs]; [reflexivity |].
  cbn [insert_sorted].
  destruct (Z.leb_spec (newest_first x y) 0) as [Hle | Hgt]; [reflexivity |].
  cbn [filter]. rewrite IHs. unfold newest_first in Hgt.
  destruct (Z.eqb_spec (fetchedAt_time x) stamp) as [Hx | Hx];
    destruct (Z.eqb_spec (fetchedAt_time y) stamp) as [Hy | Hy];
    try reflexivity.
  lia.
Qed.

Lemma weather_matches_spec (location : string) (source : option string)
    (w : WeatherData.t) :
  weather_matches location source w = true
  <-> Weather.location (Scored.weather (WeatherData.data w)) = location
      /\ (source = None \/ source = Some ""%string
          \/ source = Some (Weather.source (Scored.weather (WeatherData.data w)))).
Proof.
  unfold weather_matches, no_source.
  rewrite andb_true_iff, orb_true_iff, String.eqb_eq.
  destruct source as [text |].
  - rewrite !String.eqb_eq. split.
    + intros [Hl [-> | <-]]; auto.
    + intros [Hl [H | [H | H]]]; [discriminate H | |]; inversion H; auto.
  - split; [intros [Hl _]; auto | intros [Hl _]; auto].
Qed.

(** [getWeatherData] returns exactly the saved rows of the location (of the
    source too, when one is given and is not empty), each as often as it is
    stored, ordered from the newest fetch to the oldest, rows of the same
    instant in the order they were saved. *)
Theorem getWeatherData_newest_first (location : string) (source : option string)
    (rows : Map WeatherData.t) :
  (forall w,
     In w (getWeatherData location source rows)
     <-> In w (Map_values rows)
         /\ Weather.location (Scored.weather (WeatherData.data w)) = location
         /\ (source = None \/ source = Some ""%string
             \/ source = Some (Weather.source (Scored.weather (WeatherData.data w)))))
  /\ Permutation (getWeatherData location source rows)
                 (filter (weather_matches location source) (Map_values rows))
  /\ StronglySorted not_older (getWeatherData location source rows)
  /\ (forall stamp,
        filter (fun w => (fetchedAt_time w =? stamp)%Z)
               (getWeatherData location source rows)
        = filter (fun w => (fetchedAt_time w =? stamp)%Z)
                 (filter (weather_matches location source) (Map_values rows))).
Proof.
  unfold getWeatherData. split; [| split; [| split]].
  - intro w. split.
    + intro Hin. apply (Permutation_in _ (Array_sort_perm _ _)) in Hin.
      apply filter_In in Hin. destruct Hin as [Hin Hmatch].
      apply weather_matches_spec in Hmatch. tauto.
    + intros [Hin Hmatch].
      apply (Permutation_in _ (Permutation_sym (Array_sort_perm _ _))).
      apply filter_In. split; [exact Hin |]. now apply weather_matches_spec.
  - apply Array_sort_perm.
  - apply Array_sort_newest_first_sorted.
  - intro stamp. apply Array_sort_newest_first_stable.
Qed.

Lemma fold_insert_newest (x : WeatherData.t) (l s : list WeatherData.t) :
  (forall w, In w l -> (fetchedAt_time w < fetchedAt_time x)%Z) ->
  fold_right (insert_sorted newest_first) (x :: s) l
  = x :: fold_right (insert_sorted newest_first) s l.
Proof.
  induction l as [| a rest IH]; intro Holder; [reflexivity |].
  cbn [fold_right]. rewrite IH by (intros w Hw; apply Holder; now right).
  cbn [insert_sorted].
  destruct (Z.leb_spec (newest_first a x) 0) as [Hle | Hgt]; [| reflexivity].
  unfold newest_first in Hle. pose proof (Holder a (or_introl eq_refl)). lia.
Qed.

(** A save shows up at the head: a record saved under a new identifier at an
    instant later than every stored fetch is the first row [getWeatherData]
    returns for its location, followed by what it returned before. *)
Theorem saveWeatherData_then_getWeatherData (now : Z) (id : string)
    (data : Scored.t) (rows : Map WeatherData.t) :
  ~ In id (Map_keys rows) ->
  (forall w, In w (Map_values rows) -> (fetchedAt_time w < now)%Z) ->
  getWeatherData (Weather.location (Scored.weather data)) None
                 (snd (saveWeatherData_at now id data rows))
  = fst (saveWeatherData_at now id data rows)
    :: getWeatherData (Weather.location (Scored.weather data)) None rows
  /\ WeatherData.data (fst (saveWeatherData_at now id data rows)) = data
  /\ WeatherData.fetchedAt (fst (saveWeatherData_at now id data rows)) = Some now.
Proof.
  intros Hfresh Hlater. split; [| split; reflexivity].
  unfold getWeatherData, saveWeatherData_at. cbn [fst snd].
  rewrite Map_values_set_fresh by exact Hfresh.
  rewrite filter_app. cbn [filter].
  assert (Hmatch : weather_matches (Weather.location (Scored.weather data)) None
                     {| WeatherData.id := id; WeatherData.data := data;
                        WeatherData.fetchedAt := Some now |} = true).
  { apply weather_matches_spec. simpl. auto. }
  rewrite Hmatch. unfold Array_sort. rewrite fold_right_app. cbn [fold_right insert_sorted].
  apply fold_insert_newest. intros w Hw. apply filter_In in Hw.
  simpl. apply Hlater. tauto.
Qed.

Lemma saveWeatherData_then_getWeatherData_witness :
  ~ In "w4"%string (Map_keys stamped_rows)
  /\ (forall w, In w (Map_values stamped_rows) -> (fetchedAt_time w < 4000)%Z)
  /\ map WeatherData.id
       (getWeatherData "Seattle, US" None
          (snd (saveWeatherData_at 4000 "w4" (scored_as "accuweather" 0.89)
                  stamped_rows)))
     = ["w4"; "w3"; "w1"]%string.
Proof.
  assert (Hfresh : ~ In "w4"%string (Map_keys stamped_rows))
    by (simpl; intros [E | [E | [E | []]]]; discriminate E).
  assert (Hlater : forall w, In w (Map_values stamped_rows) ->
                             (fetchedAt_time w < 4000)%Z)
    by (simpl; intros w [<- | [<- | [<- | []]]]; reflexivity).
  split; [exact Hfresh |]. split; [exact Hlater |].
  pose proof (proj1 (saveWeatherData_then_getWeatherData 4000 "w4"
                       (scored_as "accuweather" 0.89) stamped_rows Hfresh Hlater))
    as Hhead.
  change (Weather.location (Scored.weather (scored_as "accuweather" 0.89)))
    with "Seattle, US"%string in Hhead.
  rewrite Hhead. reflexivity.
Defined.
